(** * Uptime monitor: the day-bucketed result store and its summaries

    A shallow embedding of [server/server.js] (both historical variants):
    the summary computation, the probe outcome record, the day rollover in
    [checkWebsite], the events it broadcasts, and the timer that drives it.

    JavaScript numbers are IEEE 754 binary64 values; they are modelled by
    [spec_float] with the operations of the Standard Library's [SpecFloat]
    (precision 53, maximal exponent 1024), so [/], [*] and [+] round
    exactly as the running program does. *)

From Stdlib Require Import ZArith Reals Lra Lia Psatz List String Ascii Bool.
From Stdlib Require Import SpecFloat DecimalString Permutation.
Import ListNotations.
Open Scope Z_scope.

(** ** JavaScript numbers *)

Module JSNumber.

Definition number := spec_float.

Definition prec : Z := 53.
Definition emax : Z := 1024.

(** The Number whose value is the integer [z] (array lengths, time
    differences, literals such as [0] and [100]). *)
Definition of_Z (z : Z) : number := binary_normalize prec emax z 0 false.

Definition add : number -> number -> number := SFadd prec emax.
Definition mul : number -> number -> number := SFmul prec emax.
Definition div : number -> number -> number := SFdiv prec emax.

(** [x >= 10^21] for the finite positive value [m * 2^e]. *)
Definition ge_1e21 (m : positive) (e : Z) : bool :=
  if 0 <=? e then 10 ^ 21 <=? Zpos m * 2 ^ e
  else 10 ^ 21 * 2 ^ (- e) <=? Zpos m.

(** Number.prototype.toFixed, step "let n be an integer for which
    n / 10^f - x is as close to zero as possible; if there are two such n,
    pick the larger n", for x = m * 2^e > 0. *)
Definition nearest_scaled (m : positive) (e : Z) (f : nat) : Z :=
  let a := Zpos m * 10 ^ Z.of_nat f in
  if 0 <=? e then a * 2 ^ e
  else (2 * a + 2 ^ (- e)) / 2 ^ (1 - e).

Definition decimal_digits (n : Z) : string :=
  NilZero.string_of_uint (N.to_uint (Z.to_N n)).

Fixpoint zeros (k : nat) : string :=
  match k with
  | O => EmptyString
  | S k' => String "0" (zeros k')
  end.

(** The digits of [n] with a decimal point before the last [f] of them,
    left-padded with zeros to [f + 1] digits. *)
Definition fixed_notation (n : Z) (f : nat) : string :=
  let m := decimal_digits n in
  let k := String.length m in
  let m := if Nat.leb k f then (zeros (f + 1 - k) ++ m)%string else m in
  let k := String.length m in
  match f with
  | O => m
  | _ => (substring 0 (k - f) m ++ "." ++ substring (k - f) f m)%string
  end.

End JSNumber.

Import JSNumber.

(** ** The real value of a number

    The real numbers are used to state how far a rounded result is from
    the exact one. *)

(** [2^e] for any integer [e]. *)
Definition bpow (e : Z) : R := powerRZ 2 e.

(** [x] lies in the slice of width [2^e] that starts at [m * 2^e], at the
    place in the slice that [l] names. *)
Definition located (x : R) (m e : Z) (l : location) : Prop :=
  (match l with
  | loc_Exact => x = IZR m * bpow e
  | loc_Inexact Lt => IZR m * bpow e < x < (IZR m + / 2) * bpow e
  | loc_Inexact Eq => x = (IZR m + / 2) * bpow e
  | loc_Inexact Gt => (IZR m + / 2) * bpow e < x < (IZR m + 1) * bpow e
  end)%R.

(** ** Data model *)

(** A [Date] object, observed through the two renderings the program
    uses.  [toDateString] is the local calendar day ("Mon Nov 02 2026"),
    the unit of the rollover comparison. *)
Record Date := mkDate {
  toDateString : string;
  toISOString : string
}.

(** The object built in [checkWebsite] for one probe.  [status] is [None]
    for the JavaScript [null]; [error] is [None] when the object has no
    [error] property.  [responseTime] is a difference of two [Date.now()]
    readings, an integer number of milliseconds. *)
Record CheckResult := mkCheckResult {
  timestamp : Date;
  status : option Z;
  responseTime : Z;
  success : bool;
  error : option string
}.

Record Summary := mkSummary {
  totalChecks : Z;
  successful : Z;
  failed : Z;
  uptimePercentage : string;
  averageResponseTime : string
}.

(** One day object: [currentDayData] and the elements of [pastDays]. *)
Record DayData := mkDayData {
  date : string;
  logs : list CheckResult;
  summary : Summary
}.

(** The module-level variables of the day-bucketed server. *)
Record Store := mkStore {
  currentDayKey : string;
  currentDayData : DayData;
  pastDays : list DayData
}.

(** What [io.emit] sends; the payload is serialised when [emit] is
    called, so an event carries the value its argument had at that
    moment. *)
Inductive Event :=
| newCheck (result : CheckResult)
| summaryUpdate (s : Summary)
| dailySummaryUpdate (days : list DayData).

(** How the awaited [axios.get] settles: fulfilled with a response, or
    rejected with an error object that has a [message] and, when the
    server answered, a [response]. *)
Inductive AxiosOutcome :=
| Fulfilled (response_status : Z)
| Rejected (error_response : option Z) (error_message : string).

(** What one run of [checkWebsite] reads from its environment: the two
    [Date.now()] readings around the request, how the request settled, and
    the two [new Date()] objects (the result's timestamp and [now]).

    An invocation touches the module-level variables and broadcasts only
    after its [await]; from the settlement of the request to the return
    there is no further [await].  A run is therefore this part of an
    invocation, it is not interleaved with another, and the runs take
    place in the order in which the requests settle, which is the order
    of the calls only for requests that do not overlap. *)
Record Probe := mkProbe {
  start : Z;
  outcome : AxiosOutcome;
  finish : Z;
  stamp : Date;
  now : Date
}.

(** The value an invocation hands to its caller. *)
Inductive JsValue :=
| VUndefined
| VBoolean (b : bool).

Definition NA : string := "N/A".

(** The summary literal of a freshly created day object. *)
Definition emptySummary : Summary :=
  {| totalChecks := 0; successful := 0; failed := 0;
     uptimePercentage := NA; averageResponseTime := NA |}.

(** ** Effects

    The server code reads and writes the module-level variables and
    broadcasts events: a state monad over [Store] that also collects the
    events emitted, in order. *)

Definition M (A : Type) : Type := Store -> A * Store * list Event.

Definition ret {A : Type} (a : A) : M A := fun st => (a, st, []).

Definition bind {A B : Type} (c : M A) (k : A -> M B) : M B :=
  fun st =>
    let r1 := c st in
    let r2 := k (fst (fst r1)) (snd (fst r1)) in
    (fst (fst r2), snd (fst r2), snd r1 ++ snd r2).

Definition get : M Store := fun st => (st, st, []).
Definition modify (f : Store -> Store) : M unit := fun st => (tt, f st, []).
Definition emit (e : Event) : M unit := fun st => (tt, st, [e]).
Definition when (b : bool) (c : M unit) : M unit := if b then c else ret tt.

Definition value_of {A : Type} (r : A * Store * list Event) : A := fst (fst r).
Definition store_of {A : Type} (r : A * Store * list Event) : Store := snd (fst r).
Definition events_of {A : Type} (r : A * Store * list Event) : list Event := snd r.

Declare Scope js_scope.
Delimit Scope js_scope with js.
Notation "x <- c ;; k" := (bind c (fun x => k))
  (at level 61, c at next level, right associativity) : js_scope.
Notation "c ;; k" := (bind c (fun _ => k))
  (at level 61, right associativity) : js_scope.

(** The assignments of [checkWebsite] as store updates. *)
Definition set_currentDayKey (k : string) (st : Store) : Store :=
  {| currentDayKey := k; currentDayData := currentDayData st; pastDays := pastDays st |}.

Definition set_currentDayData (d : DayData) (st : Store) : Store :=
  {| currentDayKey := currentDayKey st; currentDayData := d; pastDays := pastDays st |}.

(** [pastDays.unshift(d)] *)
Definition unshift_pastDays (d : DayData) (st : Store) : Store :=
  {| currentDayKey := currentDayKey st; currentDayData := currentDayData st;
     pastDays := d :: pastDays st |}.

(** [currentDayData.logs.push(result)] *)
Definition push_log (result : CheckResult) (st : Store) : Store :=
  set_currentDayData
    {| date := date (currentDayData st);
       logs := logs (currentDayData st) ++ [result];
       summary := summary (currentDayData st) |} st.

(** [currentDayData.summary = s] *)
Definition set_summary (s : Summary) (st : Store) : Store :=
  set_currentDayData
    {| date := date (currentDayData st);
       logs := logs (currentDayData st);
       summary := s |} st.

(** [[currentDayData, ...pastDays]] *)
Definition daySummaries (st : Store) : list DayData :=
  currentDayData st :: pastDays st.

(** ** The timer

    Lines 125-126: [setInterval(checkWebsite, CHECK_INTERVAL)] followed by
    one direct call.  Counting time in milliseconds from start-up, the
    invocation number [k] of [checkWebsite] begins at [k * CHECK_INTERVAL];
    the timer callback is the function itself, with no test of whether an
    earlier invocation is still awaiting its request. *)

Definition CHECK_INTERVAL : Z := 60000.

(** Line 59: the [timeout] option passed to [axios.get]. *)
Definition REQUEST_TIMEOUT : Z := 10000.

Definition invocation_time (k : nat) : Z := Z.of_nat k * CHECK_INTERVAL.

(** Invocation [k], whose request takes [d] ms to settle, is awaiting
    [axios.get] at time [t].  The window is closed at both ends: the
    request is dispatched in the millisecond of its tick, and it is still
    pending in the millisecond in which it settles, because the part of
    [checkWebsite] after the [await] runs as a continuation queued by the
    settlement, while a timer callback due in that same millisecond has
    already dispatched its own request (line 125 arms the timer before
    line 126 makes the first call, so a tick is due no later than the
    settlement of a request that took a whole number of intervals). *)
Definition in_flight_at (t : Z) (k : nat) (d : Z) : bool :=
  (invocation_time k <=? t) && (t <=? invocation_time k + d).

(** The number of invocations awaiting their request at time [t], for the
    invocations numbered from [k] with the given request durations. *)
Fixpoint probes_in_flight_from (k : nat) (durations : list Z) (t : Z) : nat :=
  match durations with
  | [] => O
  | d :: rest =>
      ((if in_flight_at t k d then 1 else 0) + probes_in_flight_from (S k) rest t)%nat
  end.

Definition probes_in_flight (durations : list Z) (t : Z) : nat :=
  probes_in_flight_from 0 durations t.

(** The time at which the request of invocation [k] settles, and with it
    the time of the run that logs its result. *)
Definition settle_time (k : nat) (d : Z) : Z := invocation_time k + d.

(** ** The program *)

Section Server.

(** ECMAScript's Number::toString.  [toFixed] falls back on it for NaN,
    the infinities and magnitudes of 10^21 and more; the standard leaves
    the last digit it prints to the engine, so it is a parameter. *)
Variable Number_toString : number -> string.

(** Number.prototype.toFixed(f): a value that is not finite is printed
    by Number::toString; otherwise the sign, then the magnitude, by
    Number::toString from 10^21 on and in fixed notation below. *)
Definition toFixed (x : number) (f : nat) : string :=
  match x with
  | S754_nan | S754_infinity _ => Number_toString x
  | S754_zero _ => fixed_notation 0 f
  | S754_finite s m e =>
      ((if s then "-" else "") ++
       (if ge_1e21 m e then Number_toString (S754_finite false m e)
        else fixed_notation (nearest_scaled m e f) f))%string
  end.

(** [results.length] *)
Definition length_of {A} (l : list A) : Z := Z.of_nat (List.length l).

(** server.js, lines 38-49 (day-bucketed variant). *)
Definition computeSummaryForResults (results : list CheckResult) : Summary :=
  let totalChecks := length_of results in
  let successfulChecks := filter (fun check => success check) results in
  let failedChecks := totalChecks - length_of successfulChecks in
  let uptimePercentage :=
    if totalChecks =? 0 then NA
    else toFixed (mul (div (of_Z (length_of successfulChecks)) (of_Z totalChecks))
                      (of_Z 100)) 2 in
  let averageResponseTime :=
    if 0 <? length_of successfulChecks
    then toFixed (div (fold_left (fun sum check => add sum (of_Z (responseTime check)))
                                 successfulChecks (of_Z 0))
                      (of_Z (length_of successfulChecks))) 2
    else NA in
  {| totalChecks := totalChecks;
     successful := length_of successfulChecks;
     failed := failedChecks;
     uptimePercentage := uptimePercentage;
     averageResponseTime := averageResponseTime |}.

(** The rolling-list variant keeps one module-level array. *)
Definition checkResults := list CheckResult.

(** server.js, lines 158-170 (rolling-list variant): the same
    computation, reading the module-level [checkResults]. *)
Definition computeSummary (checkResults : checkResults) : Summary :=
  let totalChecks := length_of checkResults in
  let successfulChecks := filter (fun check => success check) checkResults in
  let failedChecks := totalChecks - length_of successfulChecks in
  let uptimePercentage :=
    if totalChecks =? 0 then NA
    else toFixed (mul (div (of_Z (length_of successfulChecks)) (of_Z totalChecks))
                      (of_Z 100)) 2 in
  let averageResponseTime :=
    if 0 <? length_of successfulChecks
    then toFixed (div (fold_left (fun sum check => add sum (of_Z (responseTime check)))
                                 successfulChecks (of_Z 0))
                      (of_Z (length_of successfulChecks))) 2
    else NA in
  {| totalChecks := totalChecks;
     successful := length_of successfulChecks;
     failed := failedChecks;
     uptimePercentage := uptimePercentage;
     averageResponseTime := averageResponseTime |}.

Local Open Scope js_scope.

(** A day object as the two object literals of server.js create it
    (lines 22-32 and 87-97). *)
Definition freshDay (d : Date) : DayData :=
  {| date := toISOString d; logs := []; summary := emptySummary |}.

(** The module-level state after start-up (lines 21-33); [d1] and [d2]
    are the two [new Date()] objects of lines 21 and 23. *)
Definition initialStore (d1 d2 : Date) : Store :=
  {| currentDayKey := toDateString d1;
     currentDayData := freshDay d2;
     pastDays := [] |}.

(** The [result] object of [checkWebsite] (lines 56-78): the [try] branch
    when the request is fulfilled, the [catch] branch when it is
    rejected. *)
Definition checkWebsite_result (p : Probe) : CheckResult :=
  match outcome p with
  | Fulfilled response_status =>
      let duration := finish p - start p in
      {| timestamp := stamp p;
         status := Some response_status;
         responseTime := duration;
         success := true;
         error := None |}
  | Rejected error_response error_message =>
      let duration := finish p - start p in
      {| timestamp := stamp p;
         status := match error_response with
                   | Some response_status => Some response_status
                   | None => None
                   end;
         responseTime := duration;
         success := false;
         error := Some error_message |}
  end.

(** Line 82: [now.toDateString() !== currentDayKey]. *)
Definition dayChanged (now : Date) (st : Store) : bool :=
  negb (toDateString now =? currentDayKey st)%string.

(** Line 103. *)
Definition recomputeSummary : M unit :=
  st <- get ;;
  modify (set_summary (computeSummaryForResults (logs (currentDayData st)))).

(** server.js, lines 55-109 (day-bucketed variant).  The function has no
    [return] statement: its promise resolves to [undefined]. *)
Definition checkWebsite (p : Probe) : M JsValue :=
  let result := checkWebsite_result p in
  let now := now p in
  st <- get ;;
  when (dayChanged now st)
    (st <- get ;;
     modify (unshift_pastDays (currentDayData st)) ;;
     modify (set_currentDayKey (toDateString now)) ;;
     modify (set_currentDayData (freshDay now)) ;;
     st <- get ;;
     emit (dailySummaryUpdate (daySummaries st))) ;;
  modify (push_log result) ;;
  recomputeSummary ;;
  emit (newCheck result) ;;
  st <- get ;;
  emit (summaryUpdate (summary (currentDayData st))) ;;
  st <- get ;;
  emit (dailySummaryUpdate (daySummaries st)) ;;
  ret VUndefined.

(** The stores the server can be in between two runs of [checkWebsite]. *)
Inductive reachable : Store -> Prop :=
| reachable_start : forall d1 d2, reachable (initialStore d1 d2)
| reachable_check : forall st p,
    reachable st -> reachable (store_of (checkWebsite p st)).

(** ** Reference definitions for the properties *)

(** The number of successful records of a log. *)
Fixpoint count_successes (log : list CheckResult) : Z :=
  match log with
  | [] => 0
  | r :: rest => (if success r then 1 else 0) + count_successes rest
  end.

(** [S / N * 100] as the program evaluates it. *)
Definition percentage (S N : Z) : number :=
  mul (div (of_Z S) (of_Z N)) (of_Z 100).

(** The response times of the successful records, added up from [acc] in
    log order; failed records are passed over. *)
Fixpoint add_successful_times (acc : number) (log : list CheckResult) : number :=
  match log with
  | [] => acc
  | r :: rest =>
      add_successful_times
        (if success r then add acc (of_Z (responseTime r)) else acc) rest
  end.

(** [sum / S], the mean of the successful records' response times. *)
Definition mean_successful_time (log : list CheckResult) : number :=
  div (add_successful_times (of_Z 0) log) (of_Z (count_successes log)).

(** [s] is the numeral, with two decimals, of a hundredth that is
    nearest to the fraction [num / den]: the fraction rounded to two
    decimals.  When the fraction lies midway between two hundredths,
    either neighbour qualifies. *)
Definition rounded_to_2_decimals (num den : Z) (s : string) : Prop :=
  exists n : Z,
    0 <= n /\ 2 * Z.abs (n * den - 100 * num) <= den /\ s = fixed_notation n 2.

(** The sum of the response times of the successful records. *)
Fixpoint total_successful_time (log : list CheckResult) : Z :=
  match log with
  | [] => 0
  | r :: rest =>
      (if success r then responseTime r else 0) + total_successful_time rest
  end.

(** A day object whose summary is the summary of its log. *)
Definition consistent (d : DayData) : Prop :=
  summary d = computeSummaryForResults (logs d).

(** The store a run starts appending to: the store it was called in, or
    the store after the rollover. *)
Definition rolled (d : Date) (st : Store) : Store :=
  if dayChanged d st
  then {| currentDayKey := toDateString d;
          currentDayData := freshDay d;
          pastDays := currentDayData st :: pastDays st |}
  else st.

(** The store after the append and the recomputation of the summary. *)
Definition recorded (result : CheckResult) (st : Store) : Store :=
  {| currentDayKey := currentDayKey st;
     currentDayData :=
       {| date := date (currentDayData st);
          logs := logs (currentDayData st) ++ [result];
          summary := computeSummaryForResults (logs (currentDayData st) ++ [result]) |};
     pastDays := pastDays st |}.

(** The store after the runs of [checkWebsite] for the probes [ps], one
    after the other: [ps] lists the probes in the order in which their
    requests settle. *)
Definition run_checks (ps : list Probe) (st : Store) : Store :=
  fold_left (fun st p => store_of (checkWebsite p st)) ps st.

(** The payloads of the [dailySummaryUpdate] events of a run, in order. *)
Fixpoint dailyPayloads (events : list Event) : list (list DayData) :=
  match events with
  | [] => []
  | dailySummaryUpdate days :: rest => days :: dailyPayloads rest
  | _ :: rest => dailyPayloads rest
  end.

End Server.

(** ** The connection handler *)

(** What a client receives: the broadcasts of [io.emit], and the
    [currentState] object that the connection handler sends to the socket
    that has just connected. *)
Inductive Message :=
| Broadcast (e : Event)
| currentState (checkResults : list CheckResult) (summary : Summary)
               (daySummaries : list DayData).

(** server.js, lines 112-119 (day-bucketed variant): the handler reads
    the module-level variables and writes none. *)
Definition connection (st : Store) : Message :=
  currentState (logs (currentDayData st)) (summary (currentDayData st))
               (daySummaries st).

(** ** The rolling-list variant *)

Module RollingList.

(** server.js, lines 176-208: the [try]/[catch] is the one of the
    day-bucketed variant; the result is pushed on the module-level
    [checkResults] and the events are emitted around the call of
    [computeSummary]. *)
Definition checkWebsite (Number_toString : number -> string) (p : Probe)
    (checkResults : list CheckResult)
    : JsValue * list CheckResult * list Event :=
  let result := checkWebsite_result p in
  let checkResults := checkResults ++ [result] in
  let summary := computeSummary Number_toString checkResults in
  (VUndefined, checkResults, [newCheck result; summaryUpdate summary]).

(** The array after the runs for the probes [ps], listed in the order
    in which their requests settle, and the events of these runs in
    order. *)
Fixpoint run_checks (Number_toString : number -> string) (ps : list Probe)
    (checkResults : list CheckResult) : list CheckResult * list Event :=
  match ps with
  | [] => (checkResults, [])
  | p :: rest =>
      let '(_, checkResults', events) := checkWebsite Number_toString p checkResults in
      let '(final, later) := run_checks Number_toString rest checkResults' in
      (final, events ++ later)
  end.

End RollingList.

(** The events of the runs of the day-bucketed [checkWebsite] for the
    probes [ps], listed in the order in which their requests settle. *)
Fixpoint events_of_checks (Number_toString : number -> string) (ps : list Probe)
    (st : Store) : list Event :=
  match ps with
  | [] => []
  | p :: rest =>
      events_of (checkWebsite Number_toString p st)
      ++ events_of_checks Number_toString rest
           (store_of (checkWebsite Number_toString p st))
  end.

(** The events other than [dailySummaryUpdate]. *)
Definition without_daily (events : list Event) : list Event :=
  filter (fun e => match e with dailySummaryUpdate _ => false | _ => true end) events.

(** ** The dashboard

    App.tsx keeps three pieces of React state and updates them from the
    socket's events.  The records travel as JSON; the dashboard stores
    them as they come and only reads them when it renders. *)

Module App.

Record State := mkState {
  checkResults : list CheckResult;
  summary : Summary;
  dailySummaries : list DayData
}.

(** The three [useState] initial values (lines 48-56). *)
Definition initial : State :=
  {| checkResults := [];
     summary := {| totalChecks := 0; successful := 0; failed := 0;
                   uptimePercentage := "0"; averageResponseTime := "0" |};
     dailySummaries := [] |}.

(** [l.slice(0, n)] *)
Definition slice0 {A : Type} (n : nat) (l : list A) : list A := firstn n l.

(** The four event handlers (lines 66-82). *)
Definition on (m : Message) (s : State) : State :=
  match m with
  | currentState data_checkResults data_summary data_daySummaries =>
      {| checkResults := data_checkResults;
         summary := data_summary;
         dailySummaries := data_daySummaries |}
  | Broadcast (newCheck result) =>
      {| checkResults := slice0 100 (result :: checkResults s);
         summary := summary s;
         dailySummaries := dailySummaries s |}
  | Broadcast (summaryUpdate newSummary) =>
      {| checkResults := checkResults s;
         summary := newSummary;
         dailySummaries := dailySummaries s |}
  | Broadcast (dailySummaryUpdate data) =>
      {| checkResults := checkResults s;
         summary := summary s;
         dailySummaries := data |}
  end.

(** The state after the messages [ms], handled in the order received. *)
Definition deliver (ms : list Message) (s : State) : State :=
  fold_left (fun s m => on m s) ms s.

(** Line 174: [dailySummaries.length === 0], the test that puts "No
    daily summaries available yet." in place of the cards. *)
Definition showsNoSummaries (s : State) : bool :=
  Nat.eqb (List.length (dailySummaries s)) 0.

End App.

(** ** Reference definitions for the further properties *)

(** What the summary reads of a record. *)
Definition observed (r : CheckResult) : bool * Z := (success r, responseTime r).

(** One of the characters "0" to "9". *)
Definition is_digit (c : ascii) : bool :=
  (48 <=? nat_of_ascii c)%nat && (nat_of_ascii c <=? 57)%nat.

Fixpoint all_digits (s : string) : bool :=
  match s with
  | EmptyString => true
  | String c rest => is_digit c && all_digits rest
  end.

(** A string of the shape "d...d.dd": one decimal digit or more, a
    point, and exactly two decimal digits, with nothing before, between
    or after them. *)
Definition has_two_decimals (s : string) : Prop :=
  exists whole frac : string,
    s = (whole ++ "." ++ frac)%string /\
    (1 <= String.length whole)%nat /\ all_digits whole = true /\
    String.length frac = 2%nat /\ all_digits frac = true.

(** The same shape, as a test that can be run: the characters up to the
    first one that is not a digit, then a point and two digits. *)
Fixpoint two_decimals_after (seen : bool) (s : string) : bool :=
  match s with
  | EmptyString => false
  | String c rest =>
      if is_digit c then two_decimals_after true rest
      else seen && Ascii.eqb c "." && Nat.eqb (String.length rest) 2 && all_digits rest
  end.

Definition is_two_decimal_numeral (s : string) : bool := two_decimals_after false s.

(** ** Concrete inputs *)

(** A stand-in for the engine's Number::toString in the runs below, none
    of which reaches it; on NaN and the infinities it prints what every
    engine prints. *)
Definition sample_toString (x : number) : string :=
  match x with
  | S754_nan => "NaN"
  | S754_infinity true => "-Infinity"
  | S754_infinity false => "Infinity"
  | _ => "1e+21"
  end.

Definition monday : Date := mkDate "Mon Nov 02 2026" "2026-11-02T23:59:30.000Z".
Definition tuesday : Date := mkDate "Tue Nov 03 2026" "2026-11-03T00:00:30.000Z".
Definition friday : Date := mkDate "Fri Nov 06 2026" "2026-11-06T08:00:00.000Z".

Definition probe_ok (at_ : Date) (ms : Z) : Probe :=
  mkProbe 1000 (Fulfilled 200) (1000 + ms) at_ at_.

Definition probe_timeout (at_ : Date) : Probe :=
  mkProbe 1000 (Rejected None "timeout of 10000ms exceeded") 11002 at_ at_.

Definition store_monday : Store :=
  store_of (checkWebsite sample_toString (probe_timeout monday)
    (store_of (checkWebsite sample_toString (probe_ok monday 100)
      (initialStore monday monday)))).

Definition three_results : list CheckResult :=
  [checkWebsite_result (probe_ok monday 100);
   checkWebsite_result (probe_timeout monday);
   checkWebsite_result (probe_ok monday 300)].

Definition two_successes : list CheckResult :=
  [checkWebsite_result (probe_ok monday 100);
   checkWebsite_result (probe_ok monday 300)].

Definition two_failures : list CheckResult :=
  [checkWebsite_result (probe_timeout monday);
   checkWebsite_result (probe_timeout tuesday)].

Definition monday_probes : list Probe :=
  [probe_ok monday 250; probe_timeout monday].

Definition tuesday_probes : list Probe :=
  [probe_timeout tuesday; probe_ok tuesday 90].

(** * Properties *)

Section Properties.

Variable Number_toString : number -> string.

Local Abbreviation toFixed := (toFixed Number_toString).
Local Abbreviation computeSummaryForResults := (computeSummaryForResults Number_toString).
Local Abbreviation computeSummary := (computeSummary Number_toString).
Local Abbreviation recomputeSummary := (recomputeSummary Number_toString).
Local Abbreviation checkWebsite := (checkWebsite Number_toString).
Local Abbreviation reachable := (reachable Number_toString).
Local Abbreviation consistent := (consistent Number_toString).
Local Abbreviation recorded := (recorded Number_toString).
Local Abbreviation run_checks := (run_checks Number_toString).

(** ** Binary64 arithmetic

    How far the rounded results of [of_Z], [add], [div] and [mul] are
    from the exact ones, from the definitions of [SpecFloat]. *)

Local Open Scope R_scope.

Lemma bpow_gt_0 (e : Z) : 0 < bpow e.
Proof. apply powerRZ_lt. lra. Qed.

Lemma bpow_plus (e1 e2 : Z) : bpow (e1 + e2) = bpow e1 * bpow e2.
Proof. apply powerRZ_add. lra. Qed.

Lemma bpow_succ (e : Z) : bpow (e + 1) = 2 * bpow e.
Proof. rewrite bpow_plus. unfold bpow at 2. simpl. lra. Qed.

Lemma bpow_0 : bpow 0 = 1.
Proof. reflexivity. Qed.

Lemma bpow_IZR (n : Z) : (0 <= n)%Z -> bpow n = IZR (2 ^ n).
Proof.
  intros Hn. pattern n. apply natlike_ind; [reflexivity| |exact Hn].
  intros k Hk IH. unfold Z.succ. rewrite bpow_succ, IH.
  rewrite Z.pow_add_r by lia. rewrite mult_IZR. simpl (2 ^ 1)%Z. lra.
Qed.

Lemma bpow_le (e1 e2 : Z) : (e1 <= e2)%Z -> bpow e1 <= bpow e2.
Proof.
  intros H. replace e2 with (e1 + (e2 - e1))%Z by lia.
  rewrite bpow_plus. rewrite (bpow_IZR (e2 - e1)) by lia.
  assert (1 <= IZR (2 ^ (e2 - e1))).
  { apply IZR_le. assert (0 < 2 ^ (e2 - e1))%Z by (apply Z.pow_pos_nonneg; lia). lia. }
  pose proof (bpow_gt_0 e1). nra.
Qed.

Lemma bpow_lt (e1 e2 : Z) : (e1 < e2)%Z -> bpow e1 < bpow e2.
Proof.
  intros H. pose proof (bpow_le (e1 + 1) e2 ltac:(lia)) as Hle.
  rewrite bpow_succ in Hle. pose proof (bpow_gt_0 e1). lra.
Qed.

Lemma digits2_pos_bounds (m : positive) :
  (2 ^ (Zpos (digits2_pos m) - 1) <= Zpos m < 2 ^ Zpos (digits2_pos m))%Z.
Proof.
  induction m as [m IH | m IH |]; cbn [digits2_pos].
  - rewrite Pos2Z.inj_succ.
    replace (Z.succ (Z.pos (digits2_pos m)) - 1)%Z
      with (Z.pos (digits2_pos m) - 1 + 1)%Z by lia.
    rewrite Z.pow_add_r by lia. rewrite Z.pow_succ_r by lia. simpl (2^1)%Z. lia.
  - rewrite Pos2Z.inj_succ.
    replace (Z.succ (Z.pos (digits2_pos m)) - 1)%Z
      with (Z.pos (digits2_pos m) - 1 + 1)%Z by lia.
    rewrite Z.pow_add_r by lia. rewrite Z.pow_succ_r by lia. simpl (2^1)%Z. lia.
  - simpl. lia.
Qed.

Lemma digits2_pos_unique (m : positive) (d : Z) :
  (2 ^ (d - 1) <= Zpos m < 2 ^ d)%Z -> Zpos (digits2_pos m) = d.
Proof.
  intros [Hlo Hhi]. pose proof (digits2_pos_bounds m) as [Blo Bhi].
  set (d' := Zpos (digits2_pos m)) in *.
  assert (0 < d)%Z.
  { destruct (Z.ltb_spec 0 d); [assumption|].
    exfalso. destruct (Z.eqb_spec d 0).
    - subst. simpl in Hhi. lia.
    - rewrite Z.pow_neg_r in Hhi by lia. lia. }
  destruct (Z.lt_trichotomy d' d) as [Hlt | [Heq | Hgt]]; [|assumption|]; exfalso.
  - assert (2 ^ d' <= 2 ^ (d - 1))%Z by (apply Z.pow_le_mono_r; lia). lia.
  - assert (2 ^ d <= 2 ^ (d' - 1))%Z by (apply Z.pow_le_mono_r; lia). lia.
Qed.

Lemma located_bounds x m e l :
  located x m e l -> IZR m * bpow e <= x < (IZR m + 1) * bpow e.
Proof.
  pose proof (bpow_gt_0 e).
  destruct l as [|[| |]]; simpl; intros; nra.
Qed.

Lemma shr_1_located (x : R) (mrs : shr_record) (e : Z) :
  (0 <= shr_m mrs)%Z ->
  located x (shr_m mrs) e (loc_of_shr_record mrs) ->
  located x (shr_m (shr_1 mrs)) (e + 1) (loc_of_shr_record (shr_1 mrs)) /\
  shr_m (shr_1 mrs) = (shr_m mrs / 2)%Z.
Proof.
  destruct mrs as [m r s]. cbn [shr_m]. intros Hm.
  pose proof (bpow_gt_0 e) as Hb. pose proof (bpow_succ e) as Hs.
  destruct m as [|[p|p|]|p]; try lia.
  - destruct r, s; cbn [shr_1 orb shr_m loc_of_shr_record located];
      rewrite Hs; intros; (split; [nra | reflexivity]).
  - assert (Hp : IZR (Zpos p~1) = 2 * IZR (Zpos p) + 1)
      by (rewrite Pos2Z.inj_xI, plus_IZR, mult_IZR; reflexivity).
    assert ((Zpos p~1 / 2 = Zpos p)%Z)
      by (rewrite Pos2Z.inj_xI; symmetry; apply Z.div_unique with 1%Z; lia).
    destruct r, s; cbn [shr_1 orb shr_m loc_of_shr_record located];
      rewrite Hs, Hp; intros; (split; [nra | symmetry; assumption]).
  - assert (Hp : IZR (Zpos p~0) = 2 * IZR (Zpos p))
      by (rewrite Pos2Z.inj_xO, mult_IZR; reflexivity).
    assert ((Zpos p~0 / 2 = Zpos p)%Z)
      by (rewrite Pos2Z.inj_xO; symmetry; apply Z.div_unique with 0%Z; lia).
    destruct r, s; cbn [shr_1 orb shr_m loc_of_shr_record located];
      rewrite Hs, Hp; intros; (split; [nra | symmetry; assumption]).
  - destruct r, s; cbn [shr_1 orb shr_m loc_of_shr_record located];
      rewrite Hs; intros; (split; [nra | reflexivity]).
Qed.

Lemma iter_shr_1_located (x : R) (p : positive) :
  forall (mrs : shr_record) (e : Z),
  (0 <= shr_m mrs)%Z ->
  located x (shr_m mrs) e (loc_of_shr_record mrs) ->
  located x (shr_m (iter_pos shr_1 p mrs)) (e + Zpos p)
          (loc_of_shr_record (iter_pos shr_1 p mrs)) /\
  shr_m (iter_pos shr_1 p mrs) = (shr_m mrs / 2 ^ Zpos p)%Z.
Proof.
  assert (Hnn : forall a b, (0 <= a)%Z -> (0 <= a / 2 ^ Zpos b)%Z).
  { intros a b Ha. apply Z.div_pos; [exact Ha|]. apply Z.pow_pos_nonneg; lia. }
  induction p as [p IH | p IH |]; intros mrs e Hm Hloc; cbn [iter_pos].
  - destruct (shr_1_located x mrs e Hm Hloc) as [L1 M1].
    assert (Hm1 : (0 <= shr_m (shr_1 mrs))%Z) by (rewrite M1; apply Z.div_pos; lia).
    destruct (IH _ _ Hm1 L1) as [L2 M2].
    assert (Hm2 : (0 <= shr_m (iter_pos shr_1 p (shr_1 mrs)))%Z) by (rewrite M2; auto).
    destruct (IH _ _ Hm2 L2) as [L3 M3].
    split.
    + replace (e + Zpos p~1)%Z with (e + 1 + Zpos p + Zpos p)%Z by lia. exact L3.
    + rewrite M3, M2, M1.
      rewrite !Z.div_div by (try lia; apply Z.pow_pos_nonneg; lia).
      f_equal. rewrite Pos2Z.inj_xI.
      rewrite <- Z.pow_add_r by lia. rewrite <- (Z.pow_succ_r 2) by lia.
      f_equal. lia.
  - destruct (IH _ _ Hm Hloc) as [L2 M2].
    assert (Hm2 : (0 <= shr_m (iter_pos shr_1 p mrs))%Z) by (rewrite M2; auto).
    destruct (IH _ _ Hm2 L2) as [L3 M3].
    split.
    + replace (e + Zpos p~0)%Z with (e + Zpos p + Zpos p)%Z by lia. exact L3.
    + rewrite M3, M2.
      rewrite !Z.div_div by (try lia; apply Z.pow_pos_nonneg; lia).
      f_equal. rewrite Pos2Z.inj_xO.
      rewrite <- Z.pow_add_r by lia. f_equal. lia.
  - destruct (shr_1_located x mrs e Hm Hloc) as [L1 M1].
    split; [exact L1 | rewrite M1; reflexivity].
Qed.

Lemma loc_of_shr_record_of_loc (m : Z) (l : location) :
  loc_of_shr_record (shr_record_of_loc m l) = l /\
  shr_m (shr_record_of_loc m l) = m.
Proof. destruct l as [|[| |]]; split; reflexivity. Qed.

(** Shifting right by [n] places keeps the location of [x]. *)
Lemma shr_located (x : R) (m e n : Z) (l : location) :
  (0 <= m)%Z -> (0 <= n)%Z ->
  located x m e l ->
  let r := shr (shr_record_of_loc m l) e n in
  located x (shr_m (fst r)) (e + n) (loc_of_shr_record (fst r)) /\
  shr_m (fst r) = (m / 2 ^ n)%Z /\
  snd r = (e + n)%Z.
Proof.
  intros Hm Hn Hloc. cbv zeta.
  destruct (loc_of_shr_record_of_loc m l) as [El Em].
  destruct n as [|p|p]; [| |lia]; cbn [shr fst snd].
  - rewrite El, Em, Z.add_0_r, Z.div_1_r. auto.
  - destruct (iter_shr_1_located x p (shr_record_of_loc m l) e) as [L M].
    + rewrite Em. exact Hm.
    + rewrite El, Em. exact Hloc.
    + rewrite Em in M. auto.
Qed.

Lemma round_nearest_even_error (x : R) (m e : Z) (l : location) :
  located x m e l ->
  let m1 := round_nearest_even m l in
  (m <= m1 <= m + 1)%Z /\ Rabs (IZR m1 * bpow e - x) <= bpow e / 2.
Proof.
  intros Hloc. cbv zeta. pose proof (bpow_gt_0 e) as Hb.
  destruct l as [|[| |]]; cbn [round_nearest_even located] in *.
  - split; [lia|]. subst x. rewrite Rminus_diag, Rabs_R0. lra.
  - destruct (Z.even m); (split; [lia|]); rewrite ?plus_IZR; subst x;
      apply Rabs_le; lra.
  - split; [lia|]. apply Rabs_le. lra.
  - split; [lia|]. rewrite plus_IZR. apply Rabs_le. lra.
Qed.

Lemma fexp_normal (e : Z) : (-1021 <= e)%Z -> fexp prec emax e = (e - 53)%Z.
Proof. intros H. unfold fexp, emin, prec, emax. lia. Qed.

Lemma Zdigits2_pos (m : positive) : Zdigits2 (Zpos m) = Zpos (digits2_pos m).
Proof. reflexivity. Qed.

(** Rounding a located value whose mantissa has [d >= 53] digits, in the
    normal range and away from overflow: the result is finite, within half
    a unit in the last place of [x]. *)
Lemma binary_round_aux_normal (x : R) (sx : bool) (m : positive) (ex : Z) (l : location) :
  let d := Zpos (digits2_pos m) in
  located x (Zpos m) ex l ->
  (53 <= d)%Z -> (-1021 <= d + ex <= 1023)%Z ->
  exists (m' : positive) (e' : Z),
    binary_round_aux prec emax sx (Zpos m) ex l = S754_finite sx m' e' /\
    Rabs (IZR (Zpos m') * bpow e' - x) <= bpow (d + ex - 54) /\
    (2 ^ 52 <= Zpos m' < 2 ^ 53)%Z /\
    (d + ex - 53 <= e' <= d + ex - 52)%Z.
Proof.
  intros d Hloc Hd Hrange.
  unfold binary_round_aux, shr_fexp.
  rewrite Zdigits2_pos. fold d. rewrite fexp_normal by lia.
  pose proof (digits2_pos_bounds m) as Hdig. fold d in Hdig.
  set (k := (d + ex - 53 - ex)%Z).
  assert (Hk : (0 <= k)%Z) by (unfold k; lia).
  destruct (shr_located x (Zpos m) ex k l ltac:(lia) Hk Hloc) as [L1 [M1 E1]].
  destruct (shr (shr_record_of_loc (Z.pos m) l) ex k) as [mrs' e1] eqn:Hshr.
  cbn [fst snd] in L1, M1, E1. subst e1.
  set (E := (ex + k)%Z) in *.
  assert (HE : E = (d + ex - 53)%Z) by (unfold E, k; lia).
  (* the shifted mantissa has exactly 53 digits *)
  assert (Hm' : (2 ^ 52 <= shr_m mrs' < 2 ^ 53)%Z).
  { rewrite M1. replace k with (d - 53)%Z by (unfold k; lia). split.
    - apply Z.div_le_lower_bound; [apply Z.pow_pos_nonneg; lia|].
      rewrite <- Z.pow_add_r by lia. replace (d - 53 + 52)%Z with (d - 1)%Z by lia. lia.
    - apply Z.div_lt_upper_bound; [apply Z.pow_pos_nonneg; lia|].
      rewrite <- Z.pow_add_r by lia. replace (d - 53 + 53)%Z with d by lia. lia. }
  destruct (round_nearest_even_error x _ _ _ L1) as [Hm1 Herr].
  set (m1 := round_nearest_even (shr_m mrs') (loc_of_shr_record mrs')) in *.
  assert (Hhalf : bpow E / 2 = bpow (d + ex - 54)).
  { rewrite HE. replace (d + ex - 53)%Z with (d + ex - 54 + 1)%Z by lia.
    rewrite bpow_succ. lra. }
  rewrite Hhalf in Herr.
  destruct (Z.eq_dec m1 (2 ^ 53)) as [Hcarry | Hnocarry].
  - (* the rounding carried into a 54th digit *)
    rewrite Hcarry. change (Zdigits2 (2 ^ 53)) with 54%Z.
    rewrite fexp_normal by lia.
    replace (54 + E - 53 - E)%Z with 1%Z by lia.
    cbn [shr shr_record_of_loc iter_pos]. 
    change (shr_m (shr_1 {| shr_m := 2 ^ 53; shr_r := false; shr_s := false |}))
      with (2 ^ 52)%Z.
    change (2 ^ 52)%Z with (Zpos (2 ^ 52)%positive).
    destruct (Z.leb_spec (E + 1) (emax - prec)) as [Hle | Hgt];
      [|unfold emax, prec in Hgt; lia].
    exists (2 ^ 52)%positive, (E + 1)%Z. split; [reflexivity|].
    split; [|split; [change (Zpos (2 ^ 52)%positive) with (2 ^ 52)%Z; lia | lia]].
    rewrite bpow_succ. rewrite Hcarry in Herr.
    replace (IZR (Z.pos (2 ^ 52)) * (2 * bpow E)) with (IZR (2 ^ 53) * bpow E); [exact Herr|].
    change (2 ^ 53)%Z with (2 * Zpos (2 ^ 52)%positive)%Z. rewrite mult_IZR. lra.
  - assert (Hm1r : (2 ^ 52 <= m1 < 2 ^ 53)%Z) by lia.
    destruct m1 as [|q|q] eqn:Hq; try lia.
    assert (Hdq : Zdigits2 (Zpos q) = 53%Z).
    { rewrite Zdigits2_pos. apply digits2_pos_unique. exact Hm1r. }
    rewrite Hdq. rewrite fexp_normal by lia.
    replace (53 + E - 53 - E)%Z with 0%Z by lia.
    cbn [shr shr_record_of_loc shr_m].
    destruct (Z.leb_spec E (emax - prec)) as [Hle | Hgt];
      [|unfold emax, prec in Hgt; lia].
    exists q, E. split; [reflexivity|]. split; [exact Herr | split; lia].
Qed.

(** A located value is at least [2^(d-1+e)] when the mantissa has [d]
    digits, so half a unit in the last place is a relative error of at
    most [2^-53]. *)
Lemma located_lower (x : R) (m : positive) (ex : Z) (l : location) :
  located x (Zpos m) ex l ->
  bpow (Zpos (digits2_pos m) + ex - 1) <= x.
Proof.
  intros Hloc. apply located_bounds in Hloc as [Hlo _].
  pose proof (digits2_pos_bounds m) as [Hd _].
  pose proof (bpow_gt_0 ex) as Hb.
  replace (Zpos (digits2_pos m) + ex - 1)%Z with ((Zpos (digits2_pos m) - 1) + ex)%Z by lia.
  rewrite bpow_plus. rewrite bpow_IZR by lia.
  apply IZR_le in Hd. nra.
Qed.

Lemma half_ulp_relative (x : R) (n : Z) :
  bpow (n - 1) <= x -> bpow (n - 54) <= x * bpow (-53).
Proof.
  intros H. replace (n - 54)%Z with ((n - 1) + -53)%Z by lia.
  rewrite bpow_plus. pose proof (bpow_gt_0 (-53)). nra.
Qed.

Lemma Pos_iter_xO (m d : positive) :
  Zpos (Pos.iter xO m d) = (Zpos m * 2 ^ Zpos d)%Z.
Proof.
  induction d as [|d IH] using Pos.peano_ind.
  - cbn [Pos.iter]. lia.
  - rewrite Pos.iter_succ, Pos2Z.inj_xO, IH, Pos2Z.inj_succ, Z.pow_succ_r by lia. lia.
Qed.

Lemma shl_align_spec (m : positive) (e e' : Z) :
  let r := shl_align m e e' in
  (Zpos (fst r) = Zpos m * 2 ^ (e - snd r))%Z /\
  snd r = Z.min e e'.
Proof.
  unfold shl_align. destruct (e' - e)%Z as [|d|d] eqn:Hd; cbn [fst snd].
  - replace (Z.min e e') with e by lia. rewrite Z.sub_diag. simpl. lia.
  - replace (Z.min e e') with e by lia. rewrite Z.sub_diag. simpl. lia.
  - replace (Z.min e e') with e' by lia. rewrite Pos_iter_xO.
    replace (e - e')%Z with (Zpos d) by lia. auto.
Qed.

Lemma digits_mul_pow2 (m : positive) (k : Z) (m' : positive) :
  (0 <= k)%Z -> (Zpos m' = Zpos m * 2 ^ k)%Z ->
  Zpos (digits2_pos m') = (Zpos (digits2_pos m) + k)%Z.
Proof.
  intros Hk Hm'. apply digits2_pos_unique. rewrite Hm'.
  pose proof (digits2_pos_bounds m) as [Hlo Hhi].
  assert (0 < 2 ^ k)%Z by (apply Z.pow_pos_nonneg; lia).
  replace (Zpos (digits2_pos m) + k - 1)%Z with ((Zpos (digits2_pos m) - 1) + k)%Z by lia.
  rewrite !Z.pow_add_r by lia. split; nia.
Qed.

Lemma IZR_mul_pow2 (m k e : Z) :
  (0 <= k)%Z -> IZR (m * 2 ^ k) * bpow (e - k) = IZR m * bpow e.
Proof.
  intros Hk. rewrite mult_IZR, <- bpow_IZR by lia.
  replace e with ((e - k) + k)%Z at 2 by lia. rewrite (bpow_plus (e - k) k). lra.
Qed.

(** [binary_round] of a positive value below overflow and above the
    subnormal range. *)
Lemma binary_round_normal (sx : bool) (m : positive) (ex : Z) :
  let d := Zpos (digits2_pos m) in
  (-1021 <= d + ex <= 1023)%Z ->
  exists (m' : positive) (e' : Z),
    binary_round prec emax sx m ex = S754_finite sx m' e' /\
    Rabs (IZR (Zpos m') * bpow e' - IZR (Zpos m) * bpow ex) <= bpow (d + ex - 54) /\
    (2 ^ 52 <= Zpos m' < 2 ^ 53)%Z /\
    (d + ex - 53 <= e' <= d + ex - 52)%Z.
Proof.
  intros d Hrange. unfold binary_round. fold d. rewrite fexp_normal by lia.
  destruct (shl_align_spec m ex (d + ex - 53)) as [Hm He].
  destruct (shl_align m ex (d + ex - 53)) as [mz ez]. cbn [fst snd] in Hm, He.
  assert (Hk : (0 <= ex - ez)%Z) by lia.
  pose proof (digits_mul_pow2 m (ex - ez) mz Hk Hm) as Hdz. fold d in Hdz.
  assert (Hval : IZR (Zpos mz) * bpow ez = IZR (Zpos m) * bpow ex).
  { rewrite Hm. replace ez with (ex - (ex - ez))%Z at 2 by lia.
    apply IZR_mul_pow2. exact Hk. }
  destruct (binary_round_aux_normal (IZR (Zpos m) * bpow ex) sx mz ez loc_Exact)
    as (m' & e' & Hr & Herr & Hm' & He').
  - cbn [located]. symmetry. exact Hval.
  - rewrite Hdz. lia.
  - rewrite Hdz. lia.
  - exists m', e'. rewrite Hdz in Herr, He'.
    replace (d + (ex - ez) + ez)%Z with (d + ex)%Z in * by lia.
    auto.
Qed.

Lemma bpow_lt_inv (e1 e2 : Z) : bpow e1 < bpow e2 -> (e1 < e2)%Z.
Proof.
  intros H. destruct (Z.ltb_spec e1 e2) as [Hlt | Hge]; [exact Hlt|].
  exfalso. pose proof (bpow_le e2 e1 Hge). lra.
Qed.

Lemma Rabs_le_between (a b : R) : Rabs a <= b -> - b <= a <= b.
Proof. unfold Rabs. destruct (Rcase_abs a); lra. Qed.

Lemma IZR_half_eq (a b : Z) : Rabs (IZR a - IZR b) <= / 2 -> a = b.
Proof.
  intros H. rewrite <- minus_IZR in H.
  assert (Hlt : Rabs (IZR (a - b)) < 1) by lra.
  destruct (Z.eq_dec (a - b) 0) as [E | NE]; [lia|].
  exfalso. apply Rabs_def2 in Hlt as [H1 H2].
  apply (lt_IZR (a - b) 1) in H1.
  change (- (1)) with (IZR (-1)) in H2. apply lt_IZR in H2. lia.
Qed.

(** A rounded result within half a unit of a value on the rounding grid
    is that value. *)
Lemma round_exact (m' : positive) (e' E X : Z) :
  (E <= e' <= E + 1)%Z ->
  Rabs (IZR (Zpos m') * bpow e' - IZR X * bpow E) <= bpow (E - 1) ->
  IZR (Zpos m') * bpow e' = IZR X * bpow E.
Proof.
  intros He Herr. pose proof (bpow_gt_0 (E - 1)) as Hb.
  assert (HE : bpow E = 2 * bpow (E - 1)).
  { replace E with (E - 1 + 1)%Z at 1 by lia. apply bpow_succ. }
  assert (Hcases : e' = E \/ e' = (E + 1)%Z) by lia.
  destruct Hcases as [-> | ->].
  - assert (Zpos m' = X); [|subst; reflexivity].
    apply IZR_half_eq. apply Rabs_le. apply Rabs_le_between in Herr.
    rewrite HE in Herr. nra.
  - rewrite bpow_succ in *.
    assert (2 * Zpos m' = X)%Z; [|subst; rewrite mult_IZR; lra].
    apply IZR_half_eq. rewrite mult_IZR. apply Rabs_le. apply Rabs_le_between in Herr.
    rewrite HE in Herr. nra.
Qed.

Lemma canonical_unique (m1 m2 : positive) (e1 e2 : Z) :
  (2 ^ 52 <= Zpos m1 < 2 ^ 53)%Z -> (2 ^ 52 <= Zpos m2 < 2 ^ 53)%Z ->
  IZR (Zpos m1) * bpow e1 = IZR (Zpos m2) * bpow e2 ->
  m1 = m2 /\ e1 = e2.
Proof.
  assert (Haux : forall (a b : positive) (ea eb : Z),
    (2 ^ 52 <= Zpos a < 2 ^ 53)%Z -> (2 ^ 52 <= Zpos b < 2 ^ 53)%Z ->
    IZR (Zpos a) * bpow ea = IZR (Zpos b) * bpow eb -> ~ (ea < eb)%Z).
  { intros a b ea eb Ha Hb Heq Hlt.
    pose proof (bpow_le (ea + 1) eb ltac:(lia)) as Hle. rewrite bpow_succ in Hle.
    pose proof (bpow_gt_0 ea) as Hpos.
    assert (IZR (Zpos a) < IZR (2 ^ 53)) by (apply IZR_lt; lia).
    assert (IZR (2 ^ 52) <= IZR (Zpos b)) by (apply IZR_le; lia).
    change (2 ^ 53)%Z with (2 * 2 ^ 52)%Z in *. rewrite mult_IZR in *.
    assert (0 < IZR (2 ^ 52)) by (apply IZR_lt; reflexivity).
    nra. }
  intros H1 H2 Heq.
  assert (e1 = e2).
  { pose proof (Haux m1 m2 e1 e2 H1 H2 Heq).
    pose proof (Haux m2 m1 e2 e1 H2 H1 (eq_sym Heq)). lia. }
  subst e2. split; [|reflexivity].
  pose proof (bpow_gt_0 e1).
  assert (Hm : IZR (Zpos m1) = IZR (Zpos m2)) by nra.
  apply eq_IZR in Hm. congruence.
Qed.

(** Integers below [2^53] are numbers. *)
Lemma of_Z_exact (z : Z) :
  (0 < z < 2 ^ 53)%Z ->
  exists m e, of_Z z = S754_finite false m e /\
              (2 ^ 52 <= Zpos m < 2 ^ 53)%Z /\
              (-52 <= e <= 0)%Z /\
              IZR (Zpos m) * bpow e = IZR z.
Proof.
  intros [Hpos Hlt]. destruct z as [|p|p]; try lia.
  unfold of_Z, binary_normalize.
  pose proof (digits2_pos_bounds p) as [Hlo Hhi].
  set (d := Zpos (digits2_pos p)) in *.
  assert (Hd : (1 <= d <= 53)%Z).
  { split; [unfold d; lia|].
    destruct (Z.leb_spec d 53); [assumption|].
    assert (2 ^ 53 <= 2 ^ (d - 1))%Z by (apply Z.pow_le_mono_r; lia). lia. }
  destruct (binary_round_normal false p 0) as (m & e & Hr & Herr & Hm & He).
  { fold d. lia. }
  fold d in Herr, He. rewrite Z.add_0_r in *. rewrite bpow_0, Rmult_1_r in Herr.
  assert (Hval : IZR (Zpos m) * bpow e = IZR (Zpos p * 2 ^ (53 - d)) * bpow (d - 53)).
  { apply round_exact; [lia|].
    replace (d - 53 - 1)%Z with (d - 54)%Z by lia.
    replace (d - 53)%Z with (0 - (53 - d))%Z by lia.
    rewrite IZR_mul_pow2 by lia. rewrite bpow_0, Rmult_1_r. exact Herr. }
  replace (d - 53)%Z with (0 - (53 - d))%Z in Hval by lia.
  rewrite IZR_mul_pow2, bpow_0, Rmult_1_r in Hval by lia.
  exists m, e. repeat split; try lia; try assumption.
  (* e = d - 53: otherwise the mantissa would be too short *)
  destruct (Z.eq_dec e (d - 53)) as [->|Hne]; [lia|].
  exfalso. assert (e = (d - 53 + 1)%Z) by lia. subst e.
  assert (Hz : IZR (Zpos p) < IZR (2 ^ d)) by (apply IZR_lt; lia).
  rewrite <- bpow_IZR in Hz by lia.
  rewrite <- Hval in Hz.
  assert (Hbig : bpow (52 + (d - 53 + 1)) <= IZR (Zpos m) * bpow (d - 53 + 1)).
  { rewrite bpow_plus. rewrite bpow_IZR by lia.
    pose proof (bpow_gt_0 (d - 53 + 1)). 
    assert (IZR (2 ^ 52) <= IZR (Zpos m)) by (apply IZR_le; lia). nra. }
  replace (52 + (d - 53 + 1))%Z with d in Hbig by lia. lra.
Qed.

Lemma digits2_pos_range (m : positive) (lo hi : Z) :
  (0 <= lo)%Z -> (2 ^ lo <= Zpos m < 2 ^ hi)%Z ->
  (lo + 1 <= Zpos (digits2_pos m) <= hi)%Z.
Proof.
  intros Hlo [H1 H2]. pose proof (digits2_pos_bounds m) as [B1 B2].
  set (d := Zpos (digits2_pos m)) in *.
  split.
  - destruct (Z.leb_spec (lo + 1) d); [assumption|].
    assert (2 ^ d <= 2 ^ lo)%Z by (apply Z.pow_le_mono_r; lia). lia.
  - destruct (Z.leb_spec d hi); [assumption|].
    assert (0 <= hi)%Z.
    { destruct (Z.leb_spec 0 hi); [assumption|]. rewrite Z.pow_neg_r in H2 by lia. lia. }
    assert (2 ^ hi <= 2 ^ (d - 1))%Z by (apply Z.pow_le_mono_r; lia). lia.
Qed.

Lemma new_location_located (q r m2 e : Z) :
  (0 <= r < m2)%Z ->
  located ((IZR q + IZR r / IZR m2) * bpow e) q e (new_location m2 r).
Proof.
  intros [Hr Hm2]. pose proof (bpow_gt_0 e) as Hb.
  assert (Hm2' : 0 < IZR m2) by (apply IZR_lt; lia).
  set (rho := IZR r / IZR m2).
  assert (Hrho : IZR r = rho * IZR m2) by (unfold rho; field; lra).
  assert (Hrho0 : 0 <= rho).
  { apply IZR_le in Hr. unfold rho. apply Rmult_le_pos; [lra|].
    apply Rlt_le, Rinv_0_lt_compat, Hm2'. }
  assert (Hrho1 : rho < 1).
  { apply IZR_lt in Hm2. nra. }
  unfold new_location.
  destruct (Z.even m2) eqn:Heven.
  - unfold new_location_even. destruct (Z.eqb_spec r 0) as [E|NE].
    + cbn [located]. subst r. assert (rho = 0) by nra. nra.
    + assert (0 < rho) by (assert (0 < IZR r) by (apply IZR_lt; lia); nra).
      destruct (Z.compare_spec (2 * r) m2) as [Heq | Hlt | Hgt]; cbn [located].
      * assert (2 * IZR r = IZR m2) by (rewrite <- Heq, mult_IZR; reflexivity).
        assert (rho = / 2) by nra. nra.
      * apply IZR_lt in Hlt. rewrite mult_IZR in Hlt.
        assert (rho < / 2) by nra. nra.
      * apply IZR_lt in Hgt. rewrite mult_IZR in Hgt.
        assert (/ 2 < rho) by nra. nra.
  - unfold new_location_odd. destruct (Z.eqb_spec r 0) as [E|NE].
    + cbn [located]. subst r. assert (rho = 0) by nra. nra.
    + assert (0 < rho) by (assert (0 < IZR r) by (apply IZR_lt; lia); nra).
      assert (Hodd : (2 * r <> m2)%Z).
      { intros Heq. rewrite <- Heq, Z.even_mul in Heven. discriminate. }
      destruct (Z.compare_spec (2 * r + 1) m2) as [Heq | Hlt | Hgt]; cbn [located].
      * assert (Hlt : (2 * r < m2)%Z) by lia.
        apply IZR_lt in Hlt. rewrite mult_IZR in Hlt.
        assert (rho < / 2) by nra. nra.
      * assert (Hlt' : (2 * r < m2)%Z) by lia.
        apply IZR_lt in Hlt'. rewrite mult_IZR in Hlt'.
        assert (rho < / 2) by nra. nra.
      * assert (Hgt' : (m2 < 2 * r)%Z) by lia.
        apply IZR_lt in Hgt'. rewrite mult_IZR in Hgt'.
        assert (/ 2 < rho) by nra. nra.
Qed.

(** Division of two positive normal numbers, away from overflow and
    underflow: relative error at most [2^-53]. *)
Lemma div_normal (mx my : positive) (ex ey : Z) :
  (2 ^ 52 <= Zpos mx < 2 ^ 53)%Z -> (2 ^ 52 <= Zpos my < 2 ^ 53)%Z ->
  (-1021 <= ex - ey <= 1022)%Z ->
  let X := (IZR (Zpos mx) * bpow ex) / (IZR (Zpos my) * bpow ey) in
  exists (m : positive) (e : Z),
    div (S754_finite false mx ex) (S754_finite false my ey)
      = S754_finite false m e /\
    (2 ^ 52 <= Zpos m < 2 ^ 53)%Z /\
    (ex - ey - 53 <= e <= ex - ey - 51)%Z /\
    Rabs (IZR (Zpos m) * bpow e - X) <= X * bpow (-53).
Proof.
  intros Hmx Hmy Hrange X.
  assert (Hdx : Zpos (digits2_pos mx) = 53%Z) by (apply digits2_pos_unique; exact Hmx).
  assert (Hdy : Zpos (digits2_pos my) = 53%Z) by (apply digits2_pos_unique; exact Hmy).
  unfold div, SFdiv, SFdiv_core_binary. rewrite !Zdigits2_pos, Hdx, Hdy.
  rewrite fexp_normal by lia.
  replace (Z.min (53 + ex - (53 + ey) - 53) (ex - ey)) with (ex - ey - 53)%Z by lia.
  replace (ex - ey - (ex - ey - 53))%Z with 53%Z by lia.
  rewrite Z.shiftl_mul_pow2 by lia.
  pose proof (Z_div_mod (Zpos mx * 2 ^ 53) (Zpos my) ltac:(lia)) as Hdm.
  destruct (Z.div_eucl (Zpos mx * 2 ^ 53) (Zpos my)) as [q r].
  destruct Hdm as [Hq Hr].
  set (E := (ex - ey - 53)%Z).
  (* the quotient has 53 or 54 digits *)
  assert (Hqr : (2 ^ 52 <= q < 2 ^ 54)%Z).
  { change (2 ^ 53)%Z with 9007199254740992%Z in *.
    change (2 ^ 52)%Z with 4503599627370496%Z in *.
    change (2 ^ 54)%Z with 18014398509481984%Z. nia. }
  destruct q as [|q|q]; try lia.
  pose proof (digits2_pos_range q 52 54 ltac:(lia) Hqr) as Hdq.
  assert (Hmy' : 0 < IZR (Zpos my)) by (apply IZR_lt; lia).
  pose proof (bpow_gt_0 ex) as Hbx. pose proof (bpow_gt_0 ey) as Hby.
  pose proof (bpow_gt_0 E) as HbE.
  assert (HX : X = (IZR (Zpos q) + IZR r / IZR (Zpos my)) * bpow E).
  { unfold X.
    assert (Hex : bpow ex = bpow E * bpow ey * IZR (2 ^ 53)).
    { rewrite <- bpow_IZR by lia. rewrite <- !bpow_plus. f_equal. unfold E. lia. }
    apply (f_equal IZR) in Hq. rewrite plus_IZR, !mult_IZR in Hq.
    rewrite Hex.
    replace (IZR (Zpos mx) * (bpow E * bpow ey * IZR (2 ^ 53)))
      with ((IZR (Zpos my) * IZR (Zpos q) + IZR r) * (bpow E * bpow ey))
      by (rewrite <- Hq; ring).
    field. split; lra. }
  assert (Hloc : located X (Zpos q) E (new_location (Zpos my) r)).
  { rewrite HX. apply new_location_located. lia. }
  destruct (binary_round_aux_normal X false q E _ Hloc) as (m & e & Hres & Herr & Hm & He).
  - lia.
  - unfold E. lia.
  - exists m, e. cbn [xorb]. split; [exact Hres|]. split; [exact Hm|].
    split; [unfold E in He; lia|].
    eapply Rle_trans; [exact Herr|].
    apply half_ulp_relative. apply (located_lower _ _ _ _ Hloc).
Qed.

(** Multiplication of two positive normal numbers, away from overflow
    and underflow: relative error at most [2^-53]. *)
Lemma mul_normal (mx my : positive) (ex ey : Z) :
  (2 ^ 52 <= Zpos mx < 2 ^ 53)%Z -> (2 ^ 52 <= Zpos my < 2 ^ 53)%Z ->
  (-1126 <= ex + ey <= 917)%Z ->
  let X := (IZR (Zpos mx) * bpow ex) * (IZR (Zpos my) * bpow ey) in
  exists (m : positive) (e : Z),
    mul (S754_finite false mx ex) (S754_finite false my ey)
      = S754_finite false m e /\
    (2 ^ 52 <= Zpos m < 2 ^ 53)%Z /\
    (ex + ey + 52 <= e <= ex + ey + 54)%Z /\
    Rabs (IZR (Zpos m) * bpow e - X) <= X * bpow (-53).
Proof.
  intros Hmx Hmy Hrange X.
  unfold mul, SFmul. cbn [xorb].
  assert (Hp : (2 ^ 104 <= Zpos (mx * my) < 2 ^ 106)%Z).
  { rewrite Pos2Z.inj_mul.
    change (2 ^ 104)%Z with (2 ^ 52 * 2 ^ 52)%Z.
    change (2 ^ 106)%Z with (2 ^ 53 * 2 ^ 53)%Z. nia. }
  pose proof (digits2_pos_range (mx * my) 104 106 ltac:(lia) Hp) as Hd.
  assert (Hloc : located X (Zpos (mx * my)) (ex + ey) loc_Exact).
  { cbn [located]. unfold X. rewrite Pos2Z.inj_mul, mult_IZR, bpow_plus. ring. }
  destruct (binary_round_aux_normal X false (mx * my) (ex + ey) _ Hloc)
    as (m & e & Hres & Herr & Hm & He).
  - lia.
  - lia.
  - exists m, e. split; [exact Hres|]. split; [exact Hm|]. split; [lia|].
    eapply Rle_trans; [exact Herr|].
    apply half_ulp_relative. apply (located_lower _ _ _ _ Hloc).
Qed.

Lemma of_Z_0 : of_Z 0 = S754_zero false.
Proof. reflexivity. Qed.

(** Adding integers whose sum stays below [2^53] is exact. *)
Lemma add_of_Z (a b : Z) :
  (0 <= a)%Z -> (0 <= b)%Z -> (a + b < 2 ^ 53)%Z ->
  add (of_Z a) (of_Z b) = of_Z (a + b).
Proof.
  intros Ha Hb Hab.
  destruct (Z.eq_dec a 0) as [-> | Ha0].
  { rewrite of_Z_0, Z.add_0_l.
    destruct (Z.eq_dec b 0) as [-> | Hb0]; [reflexivity|].
    destruct (of_Z_exact b ltac:(lia)) as (mb & eb & -> & _). reflexivity. }
  destruct (of_Z_exact a ltac:(lia)) as (ma & ea & Ea & Hma & Hea & Va).
  destruct (Z.eq_dec b 0) as [-> | Hb0].
  { rewrite of_Z_0, Z.add_0_r, Ea. reflexivity. }
  destruct (of_Z_exact b ltac:(lia)) as (mb & eb & Eb & Hmb & Heb & Vb).
  destruct (of_Z_exact (a + b) ltac:(lia)) as (mc & ec & Ec & Hmc & Hec & Vc).
  rewrite Ea, Eb, Ec. unfold add, SFadd. cbn [cond_Zopp].
  set (ez := Z.min ea eb).
  destruct (shl_align_spec ma ea ez) as [Hsa Hea'].
  destruct (shl_align_spec mb eb ez) as [Hsb Heb'].
  destruct (shl_align ma ea ez) as [sa ea'].
  destruct (shl_align mb eb ez) as [sb eb'].
  cbn [fst snd] in *.
  assert (Hza : ea' = ez) by (unfold ez in *; lia).
  assert (Hzb : eb' = ez) by (unfold ez in *; lia).
  rewrite Hza in Hsa. rewrite Hzb in Hsb. clear Hea' Heb'.
  change (Zpos sa + Zpos sb)%Z with (Zpos (sa + sb)).
  cbn [binary_normalize].
  set (s := (sa + sb)%positive).
  assert (Hs : IZR (Zpos s) * bpow ez = IZR (a + b)).
  { assert (Hva : IZR (Zpos sa) * bpow ez = IZR a).
    { rewrite Hsa. replace (bpow ez) with (bpow (ea - (ea - ez))) by (f_equal; lia).
      rewrite IZR_mul_pow2 by (unfold ez; lia). exact Va. }
    assert (Hvb : IZR (Zpos sb) * bpow ez = IZR b).
    { rewrite Hsb. replace (bpow ez) with (bpow (eb - (eb - ez))) by (f_equal; lia).
      rewrite IZR_mul_pow2 by (unfold ez; lia). exact Vb. }
    unfold s. rewrite Pos2Z.inj_add, !plus_IZR, Rmult_plus_distr_r, Hva, Hvb.
    reflexivity. }
  set (d := Zpos (digits2_pos s)).
  assert (Hd1 : (1 <= d)%Z) by (unfold d; lia).
  assert (Hd2 : (d + ez <= 53)%Z).
  { assert (Hlow : bpow (d + ez - 1) <= IZR (a + b)).
    { rewrite <- Hs. apply (located_lower _ s ez loc_Exact). reflexivity. }
    assert (Hup : IZR (a + b) < bpow 53).
    { rewrite bpow_IZR by lia. apply IZR_lt. exact Hab. }
    assert (bpow (d + ez - 1) < bpow 53) by lra.
    apply bpow_lt_inv in H. lia. }
  destruct (binary_round_normal false s ez) as (m & e & Hr & Herr & Hm & He).
  { fold d. unfold ez. lia. }
  fold d in Herr, He. rewrite Hr.
  assert (Hval : IZR (Zpos m) * bpow e
                 = IZR ((a + b) * 2 ^ (53 - d - ez)) * bpow (0 - (53 - d - ez))).
  { replace (0 - (53 - d - ez))%Z with (d + ez - 53)%Z by lia.
    apply round_exact; [lia|].
    replace (d + ez - 53)%Z with (0 - (53 - d - ez))%Z by lia.
    rewrite IZR_mul_pow2 by lia. rewrite bpow_0, Rmult_1_r.
    replace (0 - (53 - d - ez) - 1)%Z with (d + ez - 54)%Z by lia.
    rewrite <- Hs. exact Herr. }
  rewrite IZR_mul_pow2, bpow_0, Rmult_1_r in Hval by lia.
  destruct (canonical_unique m mc e ec Hm Hmc) as [-> ->]; [|reflexivity].
  rewrite Hval, Vc. reflexivity.
Qed.

(** *** The digits toFixed prints *)

Lemma bpow_opp (e : Z) : bpow e * bpow (- e) = 1.
Proof. rewrite <- bpow_plus, Z.add_opp_diag_r. apply bpow_0. Qed.

Lemma ge_1e21_false (m : positive) (e : Z) :
  IZR (Zpos m) * bpow e < IZR (10 ^ 21) -> ge_1e21 m e = false.
Proof.
  intros Hv. unfold ge_1e21. destruct (Z.leb_spec 0 e) as [He | He].
  - apply Z.leb_gt. apply lt_IZR. rewrite mult_IZR, <- bpow_IZR by lia. exact Hv.
  - apply Z.leb_gt. apply lt_IZR. rewrite mult_IZR, <- bpow_IZR by lia.
    pose proof (bpow_opp e) as Ho. pose proof (bpow_gt_0 (- e)) as Hp.
    pose proof (bpow_gt_0 e) as Hq.
    replace (IZR (Zpos m)) with (IZR (Zpos m) * bpow e * bpow (- e))
      by (rewrite Rmult_assoc, Ho; ring).
    apply Rmult_lt_compat_r; assumption.
Qed.

(** The integer [n] that toFixed(2) prints for [v = m * 2^e] is the
    nearest one to [100 * v], the larger one on a tie. *)
Lemma nearest_scaled_spec (m : positive) (e : Z) :
  let n := nearest_scaled m e 2 in
  let v := IZR (Zpos m) * bpow e in
  (0 <= n)%Z /\ IZR n <= 100 * v + / 2 < IZR n + 1.
Proof.
  cbv zeta. unfold nearest_scaled.
  change (10 ^ Z.of_nat 2)%Z with 100%Z.
  pose proof (bpow_gt_0 e) as Hb.
  assert (Hm : 0 < IZR (Zpos m)) by (apply IZR_lt; lia).
  destruct (Z.leb_spec 0 e) as [He | He].
  - split.
    + assert (0 < 2 ^ e)%Z by (apply Z.pow_pos_nonneg; lia). nia.
    + rewrite !mult_IZR, <- bpow_IZR by lia. lra.
  - set (k := (- e)%Z).
    assert (Hk : (0 < k)%Z) by (unfold k; lia).
    replace (1 - e)%Z with (k + 1)%Z by (unfold k; lia).
    assert (Hpk : (0 < 2 ^ k)%Z) by (apply Z.pow_pos_nonneg; lia).
    assert (HD : (2 ^ (k + 1) = 2 * 2 ^ k)%Z) by (rewrite Z.pow_add_r by lia; lia).
    rewrite HD.
    pose proof (Z_div_mod (2 * (Zpos m * 100) + 2 ^ k) (2 * 2 ^ k) ltac:(lia)) as Hdm.
    unfold Z.div. destruct (Z.div_eucl (2 * (Zpos m * 100) + 2 ^ k) (2 * 2 ^ k)) as [n r].
    destruct Hdm as [Hn Hr]. split; [nia|].
    apply (f_equal IZR) in Hn. rewrite !plus_IZR, !mult_IZR in Hn.
    rewrite <- bpow_IZR in Hn by lia.
    pose proof (bpow_opp e) as Ho. fold k in Ho.
    pose proof (bpow_gt_0 k) as Hbk.
    assert (Hr0 : 0 <= IZR r) by (apply IZR_le; lia).
    assert (Hr1 : IZR r < 2 * bpow k).
    { rewrite bpow_IZR by lia. rewrite <- mult_IZR. apply IZR_lt. lia. }
    (* 100 v + 1/2 = n + r / (2 * 2^k) *)
    assert (Hv : (100 * (IZR (Zpos m) * bpow e) + / 2) * (2 * bpow k)
                 = IZR n * (2 * bpow k) + IZR r).
    { replace ((100 * (IZR (Zpos m) * bpow e) + / 2) * (2 * bpow k))
        with (2 * (IZR (Zpos m) * 100) * (bpow e * bpow k) + bpow k) by field.
      rewrite Ho. lra. }
    split.
    + apply Rmult_le_reg_r with (2 * bpow k); [lra|]. rewrite Hv. lra.
    + apply Rmult_lt_reg_r with (2 * bpow k); [lra|]. rewrite Hv.
      rewrite Rmult_plus_distr_r. lra.
Qed.

Lemma u53 : bpow (-53) = / 9007199254740992.
Proof.
  pose proof (bpow_opp 53) as H. rewrite (bpow_IZR 53) in H by lia.
  change (2 ^ 53)%Z with 9007199254740992%Z in H.
  change (- (53))%Z with (-53)%Z in H.
  apply Rmult_eq_reg_l with 9007199254740992; [|lra].
  rewrite H. field.
Qed.

(** *** From the rounded value to the printed hundredth *)

Lemma toFixed_finite (m : positive) (e : Z) :
  IZR (Zpos m) * bpow e < IZR (10 ^ 21) ->
  toFixed (S754_finite false m e) 2 = fixed_notation (nearest_scaled m e 2) 2.
Proof.
  intros Hv. unfold toFixed. rewrite (ge_1e21_false m e Hv). reflexivity.
Qed.

(** A number within half a hundredth-of-[1/den] of [num / den] is printed
    as [num / den] rounded to two decimals. *)
Lemma toFixed_rounded (m : positive) (e : Z) (num den : Z) :
  let v := IZR (Zpos m) * bpow e in
  (0 < den)%Z ->
  v < IZR (10 ^ 21) ->
  Rabs (IZR den * (100 * v) - IZR (100 * num)) < / 2 ->
  rounded_to_2_decimals num den (toFixed (S754_finite false m e) 2).
Proof.
  intros v Hden Hv Hclose.
  rewrite (toFixed_finite m e Hv).
  destruct (nearest_scaled_spec m e) as [Hn0 [Hlo Hhi]]. fold v in Hlo, Hhi.
  set (n := nearest_scaled m e 2) in *.
  exists n. split; [exact Hn0|]. split; [|reflexivity].
  assert (Hd : 0 < IZR den) by (apply IZR_lt; exact Hden).
  apply Rabs_def2 in Hclose as [Hc1 Hc2]. rewrite mult_IZR in Hc1, Hc2.
  assert (Hup : (2 * (n * den - 100 * num) - den < 1)%Z).
  { apply lt_IZR. rewrite minus_IZR, mult_IZR, minus_IZR, !mult_IZR. nra. }
  assert (Hdown : (-1 < 2 * (n * den - 100 * num) + den)%Z).
  { apply lt_IZR. rewrite plus_IZR, mult_IZR, minus_IZR, !mult_IZR. nra. }
  lia.
Qed.

Lemma toFixed_zero (s : bool) (num den : Z) :
  (0 < den)%Z -> num = 0%Z ->
  rounded_to_2_decimals num den (toFixed (S754_zero s) 2).
Proof.
  intros Hden ->. exists 0%Z. repeat split; [lia | simpl; lia].
Qed.

Lemma scale_error (x z u d : R) :
  0 < d -> Rabs (x - z) <= z * u -> Rabs (d * x - d * z) <= d * z * u.
Proof.
  intros Hd H. apply Rabs_le_between in H. apply Rabs_le. nra.
Qed.

(** The quotient of two positive integers below [2^53]. *)
Lemma div_of_Z (a b : Z) :
  (0 < a < 2 ^ 53)%Z -> (0 < b < 2 ^ 53)%Z ->
  exists (m : positive) (e : Z),
    div (of_Z a) (of_Z b) = S754_finite false m e /\
    (2 ^ 52 <= Zpos m < 2 ^ 53)%Z /\
    (-105 <= e <= 1)%Z /\
    Rabs (IZR b * (IZR (Zpos m) * bpow e) - IZR a) <= IZR a * bpow (-53).
Proof.
  intros Ha Hb.
  destruct (of_Z_exact a Ha) as (ma & ea & Ea & Hma & Hea & Va).
  destruct (of_Z_exact b Hb) as (mb & eb & Eb & Hmb & Heb & Vb).
  destruct (div_normal ma mb ea eb Hma Hmb ltac:(lia)) as (m & e & Hq & Hm & He & Herr).
  exists m, e. rewrite Ea, Eb. split; [exact Hq|]. split; [exact Hm|]. split; [lia|].
  rewrite Va, Vb in Herr.
  assert (Hb' : 0 < IZR b) by (apply IZR_lt; lia).
  apply (scale_error _ _ _ (IZR b) Hb') in Herr.
  replace (IZR b * (IZR a / IZR b)) with (IZR a) in Herr by (field; lra).
  exact Herr.
Qed.

(** The percentage the program computes for [S]
    successes out of [N] checks is printed as [100 * S / N] rounded to two
    decimals. *)
Lemma percentage_rounded (S N : Z) :
  (0 <= S <= N)%Z -> (0 < N < 2 ^ 32)%Z ->
  rounded_to_2_decimals (100 * S) N (toFixed (percentage S N) 2).
Proof.
  intros HS HN. unfold percentage.
  destruct (Z.eq_dec S 0) as [-> | HS0].
  { destruct (of_Z_exact N ltac:(lia)) as (mn & en & En & _).
    destruct (of_Z_exact 100 ltac:(lia)) as (mh & eh & Eh & _).
    rewrite En, Eh, of_Z_0. cbn [div SFdiv mul SFmul xorb].
    apply toFixed_zero; lia. }
  destruct (div_of_Z S N ltac:(lia) ltac:(lia)) as (mq & eq & Eq & Hmq & Heq & Herrq).
  destruct (of_Z_exact 100 ltac:(lia)) as (mh & eh & Eh & Hmh & Heh & Vh).
  destruct (mul_normal mq mh eq eh Hmq Hmh ltac:(lia)) as (m & e & Em & Hm & He & Herr).
  rewrite Eq, Eh, Em. rewrite Vh in Herr.
  set (vq := IZR (Zpos mq) * bpow eq) in *.
  set (v := IZR (Zpos m) * bpow e) in *.
  assert (HN' : 0 < IZR N) by (apply IZR_lt; lia).
  apply (scale_error _ _ _ (IZR N) HN') in Herr.
  rewrite u53 in Herrq, Herr.
  apply Rabs_le_between in Herrq. apply Rabs_le_between in Herr.
  assert (HS1 : 0 < IZR S) by (apply IZR_lt; lia).
  assert (HS2 : IZR S < 4294967296) by (apply IZR_lt; lia).
  assert (HSN : IZR S <= IZR N) by (apply IZR_le; lia).
  set (Q := IZR N * vq) in *.
  replace (IZR N * (vq * 100)) with (100 * Q) in Herr by (unfold Q; ring).
  set (W := IZR N * v) in *.
  apply toFixed_rounded; [lia | |].
  - fold v. change (10 ^ 21)%Z with 1000000000000000000000%Z.
    assert (W <= 101 * IZR N) by lra.
    unfold W in *. nra.
  - fold v. rewrite !mult_IZR.
    replace (IZR N * (100 * v)) with (100 * W) by (unfold W; ring).
    apply Rabs_def1; lra.
Qed.

(** The mean of a total [T] over [S] records is
    printed as [T / S] rounded to two decimals. *)
Lemma mean_rounded (T S : Z) :
  (0 <= T < 2 ^ 45)%Z -> (0 < S < 2 ^ 53)%Z ->
  rounded_to_2_decimals T S (toFixed (div (of_Z T) (of_Z S)) 2).
Proof.
  intros HT HS.
  destruct (Z.eq_dec T 0) as [-> | HT0].
  { destruct (of_Z_exact S HS) as (ms & es & Es & _).
    rewrite Es, of_Z_0. cbn [div SFdiv xorb].
    apply toFixed_zero; lia. }
  assert (HT53 : (0 < T < 2 ^ 53)%Z).
  { split; [lia|]. assert (2 ^ 45 < 2 ^ 53)%Z by reflexivity. lia. }
  destruct (div_of_Z T S HT53 HS) as (m & e & E & Hm & He & Herr).
  rewrite E. rewrite u53 in Herr. apply Rabs_le_between in Herr.
  set (v := IZR (Zpos m) * bpow e) in *.
  assert (HS' : 1 <= IZR S) by (apply IZR_le; lia).
  assert (HT1 : 0 < IZR T) by (apply IZR_lt; lia).
  assert (HT2 : IZR T < 35184372088832) by (apply IZR_lt; lia).
  set (W := IZR S * v) in *.
  apply toFixed_rounded; [lia | |].
  - fold v. change (10 ^ 21)%Z with 1000000000000000000000%Z.
    assert (W <= 2 * IZR T) by lra.
    assert (0 <= v) by (unfold v; pose proof (bpow_gt_0 e);
                        assert (0 < IZR (Zpos m)) by (apply IZR_lt; lia); nra).
    unfold W in *. nra.
  - fold v. rewrite mult_IZR.
    replace (IZR S * (100 * v)) with (100 * W) by (unfold W; ring).
    apply Rabs_def1; lra.
Qed.

Local Close Scope R_scope.

(** ** Lemmas on the summary computation *)

Lemma length_filter_success (log : list CheckResult) :
  length_of (filter (fun check => success check) log) = count_successes log.
Proof.
  unfold length_of.
  induction log as [|r rest IH]; cbn [filter count_successes]; [reflexivity|].
  destruct (success r); cbn [List.length]; rewrite ?Nat2Z.inj_succ; lia.
Qed.

Lemma count_successes_bounds (log : list CheckResult) :
  0 <= count_successes log <= length_of log.
Proof.
  unfold length_of.
  induction log as [|r rest IH]; cbn [count_successes List.length]; [lia|].
  rewrite Nat2Z.inj_succ. destruct (success r); lia.
Qed.

Lemma fold_filter_success (log : list CheckResult) (acc : number) :
  fold_left (fun sum check => add sum (of_Z (responseTime check)))
            (filter (fun check => success check) log) acc
  = add_successful_times acc log.
Proof.
  revert acc.
  induction log as [|r rest IH]; intros acc; simpl; [reflexivity|].
  destruct (success r); simpl; apply IH.
Qed.

Lemma total_successful_time_nonneg (log : list CheckResult) :
  Forall (fun r => success r = true -> 0 <= responseTime r) log ->
  0 <= total_successful_time log.
Proof.
  induction 1 as [|r rest Hr Hrest IH]; cbn [total_successful_time]; [lia|].
  destruct (success r); [specialize (Hr eq_refl)|]; lia.
Qed.

(** While the running total stays below [2^53] the additions of the
    reduce are exact: the accumulator is the integer sum. *)
Lemma add_successful_times_exact (log : list CheckResult) :
  Forall (fun r => success r = true -> 0 <= responseTime r) log ->
  forall a : Z,
    0 <= a -> a + total_successful_time log < 2 ^ 53 ->
    add_successful_times (of_Z a) log = of_Z (a + total_successful_time log).
Proof.
  induction 1 as [|r rest Hr Hrest IH]; intros a Ha Hsum;
    cbn [add_successful_times total_successful_time] in *.
  - rewrite Z.add_0_r. reflexivity.
  - pose proof (total_successful_time_nonneg rest Hrest) as Hnn.
    destruct (success r).
    + specialize (Hr eq_refl).
      rewrite add_of_Z by lia. rewrite IH by lia. f_equal. lia.
    + rewrite IH by lia. reflexivity.
Qed.

(** C1.  For a log of N records of which S are successful, the summary
    has totalChecks = N, successful = S and failed = N - S.  Its
    uptimePercentage is the sentinel "N/A" when N = 0 and otherwise the
    number S / N * 100 printed with two decimals; for every log an array
    can hold (fewer than 2^32 records) what is printed is a hundredth
    nearest to the exact percentage 100 * S / N. *)
Theorem summary_correctness (log : list CheckResult) :
  let N := length_of log in
  let S := count_successes log in
  let s := computeSummaryForResults log in
  totalChecks s = N /\
  successful s = S /\
  failed s = N - S /\
  uptimePercentage s = (if N =? 0 then NA else toFixed (percentage S N) 2) /\
  (0 < N < 2 ^ 32 -> rounded_to_2_decimals (100 * S) N (uptimePercentage s)).
Proof.
  cbv zeta.
  assert (Hup : uptimePercentage (computeSummaryForResults log)
                = (if length_of log =? 0 then NA
                   else toFixed (percentage (count_successes log) (length_of log)) 2)).
  { unfold computeSummaryForResults; cbn [uptimePercentage].
    rewrite length_filter_success. reflexivity. }
  split; [reflexivity|]. split; [apply length_filter_success|].
  split; [unfold computeSummaryForResults; cbn [failed];
          rewrite length_filter_success; reflexivity|].
  split; [exact Hup|].
  intros HN. rewrite Hup.
  destruct (Z.eqb_spec (length_of log) 0) as [E|_]; [lia|].
  apply percentage_rounded; [apply count_successes_bounds | exact HN].
Qed.

(** C4.  The summary's averageResponseTime is the sentinel "N/A" when
    the log has no successful record, and otherwise the mean of
    responseTime over the successful records only, printed with two
    decimals; when the successful records' response times are
    non-negative and add up to less than 2^45 ms, what is printed is a
    hundredth nearest to their exact mean T / S. *)
Theorem average_latency (log : list CheckResult) :
  let S := count_successes log in
  let T := total_successful_time log in
  let s := computeSummaryForResults log in
  averageResponseTime s
    = (if S =? 0 then NA else toFixed (mean_successful_time log) 2) /\
  (0 < S -> length_of log < 2 ^ 32 ->
   Forall (fun r => success r = true -> 0 <= responseTime r) log ->
   T < 2 ^ 45 ->
   rounded_to_2_decimals T S (averageResponseTime s)).
Proof.
  cbv zeta.
  assert (Havg : averageResponseTime (computeSummaryForResults log)
                 = (if count_successes log =? 0 then NA
                    else toFixed (mean_successful_time log) 2)).
  { unfold computeSummaryForResults, mean_successful_time; cbn [averageResponseTime].
    rewrite length_filter_success, fold_filter_success.
    pose proof (count_successes_bounds log) as Hb.
    destruct (Z.ltb_spec 0 (count_successes log)) as [Hpos|Hzero];
      destruct (Z.eqb_spec (count_successes log) 0) as [E|NE];
      try reflexivity; lia. }
  split; [exact Havg|].
  intros HS HN Hnn HT. rewrite Havg.
  destruct (Z.eqb_spec (count_successes log) 0) as [E|_]; [lia|].
  unfold mean_successful_time.
  pose proof (total_successful_time_nonneg log Hnn) as HT0.
  pose proof (count_successes_bounds log) as Hb.
  assert (H45 : 2 ^ 45 < 2 ^ 53) by reflexivity.
  assert (H32 : 2 ^ 32 < 2 ^ 53) by reflexivity.
  rewrite (add_successful_times_exact log Hnn 0) by lia.
  rewrite Z.add_0_l.
  apply mean_rounded; lia.
Qed.

(** C10.  The rolling-list variant's computeSummary, run with a list as
    its checkResults, returns the same Summary as the day-bucketed
    variant's computeSummaryForResults on that list. *)
Theorem computeSummary_agrees (results : list CheckResult) :
  computeSummary results = computeSummaryForResults results.
Proof.
  unfold computeSummary, computeSummaryForResults.
  f_equal.
Qed.

(** ** Lemmas on one run of checkWebsite *)

Lemma dayChanged_spec (d : Date) (st : Store) :
  dayChanged d st = true <-> toDateString d <> currentDayKey st.
Proof.
  unfold dayChanged.
  destruct (String.eqb_spec (toDateString d) (currentDayKey st)) as [E|NE]; simpl.
  - split; [discriminate | intros H; contradiction].
  - split; [intros _; exact NE | reflexivity].
Qed.

Lemma checkWebsite_run (p : Probe) (st : Store) :
  let result := checkWebsite_result p in
  let st' := recorded result (rolled (now p) st) in
  checkWebsite p st =
    (VUndefined, st',
     (if dayChanged (now p) st
      then [dailySummaryUpdate (daySummaries (rolled (now p) st))]
      else [])
     ++ [newCheck result;
         summaryUpdate (summary (currentDayData st'));
         dailySummaryUpdate (daySummaries st')]).
Proof.
  cbv zeta. unfold checkWebsite, rolled.
  cbv [recomputeSummary when bind get modify emit ret fst snd].
  destruct (dayChanged (now p) st);
    cbv [recorded daySummaries push_log set_summary set_currentDayData
         set_currentDayKey unshift_pastDays fst snd
         currentDayKey currentDayData pastDays date logs summary];
    cbn [app]; reflexivity.
Qed.

Lemma store_of_checkWebsite (p : Probe) (st : Store) :
  store_of (checkWebsite p st) = recorded (checkWebsite_result p) (rolled (now p) st).
Proof. rewrite checkWebsite_run. reflexivity. Qed.

Lemma consistent_freshDay (d : Date) : consistent (freshDay d).
Proof. reflexivity. Qed.

Lemma consistent_recorded (result : CheckResult) (st : Store) :
  consistent (currentDayData (recorded result st)).
Proof. reflexivity. Qed.

Lemma run_checks_app (ps qs : list Probe) (st : Store) :
  run_checks (ps ++ qs) st = run_checks qs (run_checks ps st).
Proof. unfold run_checks. apply fold_left_app. Qed.

(** Runs within the active day append to the active log, in the order in
    which they take place, and touch nothing else. *)
Lemma run_checks_same_day (ps : list Probe) (st : Store) :
  Forall (fun p => toDateString (now p) = currentDayKey st) ps ->
  let st' := run_checks ps st in
  currentDayKey st' = currentDayKey st /\
  pastDays st' = pastDays st /\
  date (currentDayData st') = date (currentDayData st) /\
  logs (currentDayData st') = logs (currentDayData st) ++ map checkWebsite_result ps.
Proof.
  revert st. induction ps as [|p ps IH]; intros st Hall; cbv zeta.
  - cbn. rewrite app_nil_r. auto.
  - inversion Hall as [|? ? Hp Hps]; subst.
    change (run_checks (p :: ps) st) with (run_checks ps (store_of (checkWebsite p st))).
    assert (Hsame : dayChanged (now p) st = false).
    { unfold dayChanged. rewrite Hp, String.eqb_refl. reflexivity. }
    rewrite store_of_checkWebsite. unfold rolled. rewrite Hsame.
    destruct (IH (recorded (checkWebsite_result p) st)) as (K & P & D & L).
    { unfold recorded; cbn [currentDayKey]. exact Hps. }
    rewrite K, P, D, L. unfold recorded; cbn [currentDayKey pastDays currentDayData date logs].
    rewrite <- app_assoc. auto.
Qed.

(** X10.  Requests that settle on day D1, followed by requests that
    settle on another day D2: one day object is archived, the one of D1
    with all of D1's records, and the active log holds exactly D2's
    results, in the order in which the requests settled (line 102 pushes
    after the await, so this is the order of the calls only when the
    requests do not overlap). *)
Lemma single_rollover_per_day_boundary (ps1 ps2 : list Probe) (p : Probe) (st : Store) :
  Forall (fun q => toDateString (now q) = currentDayKey st) ps1 ->
  toDateString (now p) <> currentDayKey st ->
  Forall (fun q => toDateString (now q) = toDateString (now p)) ps2 ->
  let day1 := run_checks ps1 st in
  let st' := run_checks (ps1 ++ p :: ps2) st in
  pastDays st' = currentDayData day1 :: pastDays st /\
  logs (currentDayData day1) = logs (currentDayData st) ++ map checkWebsite_result ps1 /\
  currentDayKey st' = toDateString (now p) /\
  logs (currentDayData st') = map checkWebsite_result (p :: ps2).
Proof.
  intros H1 Hp H2. cbv zeta.
  destruct (run_checks_same_day ps1 st H1) as (K1 & P1 & D1 & L1).
  rewrite run_checks_app.
  change (run_checks (p :: ps2) (run_checks ps1 st))
    with (run_checks ps2 (store_of (checkWebsite p (run_checks ps1 st)))).
  assert (Hchg : dayChanged (now p) (run_checks ps1 st) = true).
  { apply dayChanged_spec. rewrite K1. exact Hp. }
  rewrite store_of_checkWebsite. unfold rolled. rewrite Hchg.
  destruct (run_checks_same_day ps2
              (recorded (checkWebsite_result p)
                 {| currentDayKey := toDateString (now p);
                    currentDayData := freshDay (now p);
                    pastDays := currentDayData (run_checks ps1 st)
                                :: pastDays (run_checks ps1 st) |}))
    as (K2 & P2 & D2 & L2).
  { unfold recorded; cbn [currentDayKey]. exact H2. }
  rewrite K2, P2, L2. unfold recorded; cbn [currentDayKey pastDays currentDayData logs freshDay].
  rewrite P1. repeat split; try reflexivity. exact L1.
Qed.

(** ** Properties of checkWebsite *)

(** C2.  When the current day differs from currentDayKey, a run of
    checkWebsite performs one rollover, whatever the gap between the two
    days: the active day object, summary included, becomes the head of
    pastDays, a new empty day object for the current day becomes active,
    and the result is appended to that new object; when the day has not
    changed, the keys and pastDays stay as they are and the result is
    appended to the active day object. *)
Theorem rollover_before_append (st : Store) (p : Probe) :
  let st' := store_of (checkWebsite p st) in
  let result := checkWebsite_result p in
  (dayChanged (now p) st = true <-> toDateString (now p) <> currentDayKey st) /\
  (if dayChanged (now p) st
   then pastDays st' = currentDayData st :: pastDays st /\
        currentDayKey st' = toDateString (now p) /\
        date (currentDayData st') = toISOString (now p) /\
        logs (currentDayData st') = [result]
   else pastDays st' = pastDays st /\
        currentDayKey st' = currentDayKey st /\
        date (currentDayData st') = date (currentDayData st) /\
        logs (currentDayData st') = logs (currentDayData st) ++ [result]).
Proof.
  cbv zeta. split; [apply dayChanged_spec|].
  rewrite store_of_checkWebsite. unfold rolled, recorded.
  destruct (dayChanged (now p) st);
    cbn [pastDays currentDayKey currentDayData date logs freshDay app];
    repeat split; reflexivity.
Qed.

(** C5.  In every reachable store (the one at start-up and the one after
    every run of checkWebsite, with or without rollover) the active day
    object's summary is the summary of its log, and so is the summary of
    every day object in pastDays; the summary literal of a freshly
    created day object is the summary of the empty log. *)
Theorem summary_consistent (st : Store) :
  reachable st ->
  consistent (currentDayData st) /\
  Forall consistent (pastDays st) /\
  computeSummaryForResults [] = emptySummary.
Proof.
  intros Hreach. split; [|split; [|reflexivity]].
  - induction Hreach as [d1 d2 | st p Hreach IH].
    + apply consistent_freshDay.
    + rewrite store_of_checkWebsite. apply consistent_recorded.
  - induction Hreach as [d1 d2 | st p Hreach IH].
    + constructor.
    + rewrite store_of_checkWebsite. unfold rolled, recorded.
      destruct (dayChanged (now p) st) eqn:Hday; cbn [pastDays]; [|exact IH].
      constructor; [|exact IH].
      (* the day object being archived is the active one of a reachable store *)
      clear IH Hday. induction Hreach as [d1 d2 | st q Hreach _].
      * apply consistent_freshDay.
      * rewrite store_of_checkWebsite. apply consistent_recorded.
Qed.

(** C6 (as amended).  checkWebsite hands no rollover indication to its
    caller: the value it resolves to is undefined on every run, whether
    the run rolled the day over or not. *)
Theorem checkWebsite_returns_undefined (st : Store) (p : Probe) :
  value_of (checkWebsite p st) = VUndefined.
Proof. rewrite checkWebsite_run. reflexivity. Qed.

(** C7.  The result object of a probe has an error message exactly when
    success is false.  When the request is rejected the result has
    success = false, the status of the response if one came with the
    error and null otherwise, and the error's message; when it is
    fulfilled it has success = true and the response status.  Either
    way checkWebsite completes: the result is appended to the active log
    and broadcast. *)
Theorem probe_result_shape (st : Store) (p : Probe) :
  let result := checkWebsite_result p in
  (error result <> None <-> success result = false) /\
  responseTime result = finish p - start p /\
  match outcome p with
  | Rejected error_response error_message =>
      success result = false /\
      status result = error_response /\
      error result = Some error_message
  | Fulfilled response_status =>
      success result = true /\
      status result = Some response_status /\
      error result = None
  end /\
  In (newCheck result) (events_of (checkWebsite p st)) /\
  last (logs (currentDayData (store_of (checkWebsite p st)))) result = result.
Proof.
  cbv zeta. rewrite checkWebsite_run. unfold events_of, store_of; cbn [fst snd].
  split; [|split; [|split; [|split]]].
  - unfold checkWebsite_result.
    destruct (outcome p); cbn [error success]; split;
      solve [discriminate | reflexivity | intros H; now elim H].
  - unfold checkWebsite_result. destruct (outcome p); reflexivity.
  - unfold checkWebsite_result.
    destruct (outcome p) as [response_status | [response_status|] error_message];
      cbn [error success status]; repeat split; reflexivity.
  - apply in_or_app. right. left. reflexivity.
  - unfold recorded; cbn [currentDayData logs]. apply last_last.
Qed.

(** C9.  A run of checkWebsite that rolls the day over broadcasts
    dailySummaryUpdate twice: first from inside the rollover, with an
    active day object whose log is empty and whose summary is the zeroed
    one, ahead of the archived day; then after the append, with the
    result in the active log.  A run without rollover broadcasts it
    once. *)
Theorem daily_broadcasts (st : Store) (p : Probe) :
  let run := checkWebsite p st in
  let result := checkWebsite_result p in
  dailyPayloads (events_of run)
  = (if dayChanged (now p) st
     then [freshDay (now p) :: currentDayData st :: pastDays st;
           daySummaries (store_of run)]
     else [daySummaries (store_of run)]) /\
  logs (freshDay (now p)) = [] /\
  summary (freshDay (now p)) = emptySummary /\
  In result (logs (currentDayData (store_of run))).
Proof.
  cbv zeta. rewrite checkWebsite_run. unfold events_of, store_of; cbn [fst snd].
  split; [|split; [|split]]; try reflexivity.
  - unfold rolled. destruct (dayChanged (now p) st); reflexivity.
  - unfold recorded; cbn [currentDayData logs].
    apply in_or_app. right. left. reflexivity.
Qed.

End Properties.

(** ** The timer and the probes in flight *)

Lemma invocation_time_succ (k : nat) :
  invocation_time (S k) = invocation_time k + CHECK_INTERVAL.
Proof. unfold invocation_time. rewrite Nat2Z.inj_succ. lia. Qed.

Lemma none_in_flight_before (durations : list Z) (k : nat) (t : Z) :
  t < invocation_time k -> probes_in_flight_from k durations t = O.
Proof.
  revert k. induction durations as [|d rest IH]; intros k Ht; [reflexivity|].
  cbn [probes_in_flight_from]. rewrite IH.
  - unfold in_flight_at.
    destruct (Z.leb_spec (invocation_time k) t); [lia | reflexivity].
  - rewrite invocation_time_succ. unfold CHECK_INTERVAL. lia.
Qed.

Lemma at_most_one_from (durations : list Z) (k : nat) (t : Z) :
  Forall (fun d => d < CHECK_INTERVAL) durations ->
  (probes_in_flight_from k durations t <= 1)%nat.
Proof.
  intros Hall. revert k.
  induction Hall as [|d rest Hd Hrest IH]; intros k; cbn [probes_in_flight_from]; [lia|].
  destruct (in_flight_at t k d) eqn:E.
  - rewrite none_in_flight_before; [lia|].
    unfold in_flight_at in E. apply andb_prop in E as [_ E].
    apply Z.leb_le in E. rewrite invocation_time_succ. lia.
  - apply IH.
Qed.


(** Requests that settle within the timeout passed to [axios.get] never
    overlap. *)
Lemma no_overlap_within_timeout (durations : list Z) (t : Z) :
  Forall (fun d => d <= REQUEST_TIMEOUT) durations ->
  (probes_in_flight durations t <= 1)%nat.
Proof.
  intros H. apply at_most_one_from.
  eapply Forall_impl; [|exact H].
  cbv beta. unfold REQUEST_TIMEOUT, CHECK_INTERVAL. intros d Hd. lia.
Qed.



(** The bound of the interval is sharp.  A request that takes exactly
    CHECK_INTERVAL is still pending when the tick dispatches the next
    one; one that is a millisecond faster has settled, and exactly one
    probe is in flight on either side of the tick. *)
Example request_of_a_whole_interval_overlaps :
  probes_in_flight [60000; 100] 60000 = 2%nat /\
  probes_in_flight [59999; 100] 59999 = 1%nat /\
  probes_in_flight [59999; 100] 60000 = 1%nat.
Proof. repeat split; reflexivity. Qed.

(** ** Concrete runs *)

Lemma summary_consistent_witness :
  reachable sample_toString
    (store_of (checkWebsite sample_toString (probe_ok friday 300) store_monday)) /\
  consistent sample_toString
    (currentDayData (store_of (checkWebsite sample_toString (probe_ok friday 300) store_monday))) /\
  Forall (consistent sample_toString)
    (pastDays (store_of (checkWebsite sample_toString (probe_ok friday 300) store_monday))) /\
  computeSummaryForResults sample_toString [] = emptySummary.
Proof.
  assert (H : reachable sample_toString
    (store_of (checkWebsite sample_toString (probe_ok friday 300) store_monday))).
  { repeat apply reachable_check. apply reachable_start. }
  split; [exact H | exact (summary_consistent sample_toString _ H)].
Defined.

(** C6, as stated, fails: the run below rolls the day over and its value
    is not the boolean true. *)
Lemma rollover_not_reported :
  dayChanged (now (probe_ok tuesday 120)) store_monday = true /\
  value_of (checkWebsite sample_toString (probe_ok tuesday 120) store_monday)
    <> VBoolean (dayChanged (now (probe_ok tuesday 120)) store_monday).
Proof. split; [reflexivity | vm_compute; discriminate]. Qed.

(** The scenarios of the specification. *)
Example scenario_three_results :
  computeSummaryForResults sample_toString
    [checkWebsite_result (probe_ok monday 100);
     checkWebsite_result (probe_timeout monday);
     checkWebsite_result (probe_ok monday 300)]
  = {| totalChecks := 3; successful := 2; failed := 1;
       uptimePercentage := "66.67"; averageResponseTime := "200.00" |}.
Proof. vm_compute. reflexivity. Qed.

Example scenario_empty_log :
  computeSummaryForResults sample_toString [] = emptySummary.
Proof. reflexivity. Qed.

Example scenario_rollover :
  let st := store_of (checkWebsite sample_toString (probe_ok tuesday 120) store_monday) in
  List.length (pastDays st) = 1%nat /\
  map logs (pastDays st) = [logs (currentDayData store_monday)] /\
  logs (currentDayData st) = [checkWebsite_result (probe_ok tuesday 120)].
Proof. vm_compute. repeat split; reflexivity. Qed.

Lemma summary_correctness_witness :
  0 < length_of three_results < 2 ^ 32 /\
  rounded_to_2_decimals (100 * count_successes three_results) (length_of three_results)
    (uptimePercentage (computeSummaryForResults sample_toString three_results)).
Proof.
  assert (H : 0 < length_of three_results < 2 ^ 32) by (vm_compute; split; reflexivity).
  split; [exact H|].
  exact (proj2 (proj2 (proj2 (proj2
           (summary_correctness sample_toString three_results)))) H).
Defined.

Lemma average_latency_witness :
  0 < count_successes three_results /\
  length_of three_results < 2 ^ 32 /\
  Forall (fun r => success r = true -> 0 <= responseTime r) three_results /\
  total_successful_time three_results < 2 ^ 45 /\
  rounded_to_2_decimals (total_successful_time three_results)
    (count_successes three_results)
    (averageResponseTime (computeSummaryForResults sample_toString three_results)).
Proof.
  assert (H1 : 0 < count_successes three_results) by reflexivity.
  assert (H2 : length_of three_results < 2 ^ 32) by reflexivity.
  assert (H3 : Forall (fun r => success r = true -> 0 <= responseTime r) three_results).
  { repeat constructor; intros _; vm_compute; discriminate. }
  assert (H4 : total_successful_time three_results < 2 ^ 45) by reflexivity.
  repeat (split; [assumption|]).
  exact (proj2 (average_latency sample_toString three_results) H1 H2 H3 H4).
Defined.

(** Ties go to whichever side the binary64 value falls on: 201 of 20000
    is the exact percentage 1.005 and prints as "1.00"; 1 of 160 is 0.625
    and prints as "0.63". *)
Example tie_below :
  toFixed sample_toString (percentage 201 20000) 2 = "1.00"%string.
Proof. vm_compute. reflexivity. Qed.

Example tie_above :
  toFixed sample_toString (percentage 1 160) 2 = "0.63"%string.
Proof. vm_compute. reflexivity. Qed.

(** * Further properties *)

Section FurtherProperties.

Variable Number_toString : number -> string.

Local Abbreviation toFixed := (toFixed Number_toString).
Local Abbreviation computeSummaryForResults := (computeSummaryForResults Number_toString).
Local Abbreviation computeSummary := (computeSummary Number_toString).
Local Abbreviation checkWebsite := (checkWebsite Number_toString).
Local Abbreviation reachable := (reachable Number_toString).
Local Abbreviation consistent := (consistent Number_toString).
Local Abbreviation recorded := (recorded Number_toString).
Local Abbreviation run_checks := (run_checks Number_toString).
Local Abbreviation events_of_checks := (events_of_checks Number_toString).

(** ** The summary as a function of the log *)

Lemma uptimePercentage_eq (log : list CheckResult) :
  uptimePercentage (computeSummaryForResults log)
  = (if length_of log =? 0 then NA
     else toFixed (percentage (count_successes log) (length_of log)) 2).
Proof.
  unfold computeSummaryForResults; cbn [uptimePercentage].
  rewrite length_filter_success. reflexivity.
Qed.

Lemma averageResponseTime_eq (log : list CheckResult) :
  averageResponseTime (computeSummaryForResults log)
  = (if 0 <? count_successes log
     then toFixed (div (add_successful_times (of_Z 0) log)
                       (of_Z (count_successes log))) 2
     else NA).
Proof.
  unfold computeSummaryForResults; cbn [averageResponseTime].
  rewrite length_filter_success, fold_filter_success. reflexivity.
Qed.

Lemma counts_eq (log : list CheckResult) :
  totalChecks (computeSummaryForResults log) = length_of log /\
  successful (computeSummaryForResults log) = count_successes log /\
  failed (computeSummaryForResults log) = length_of log - count_successes log.
Proof.
  unfold computeSummaryForResults; cbn [totalChecks successful failed].
  rewrite length_filter_success. auto.
Qed.

(** X1.  The three counts of a summary are never negative and the
    successful and failed checks add up to the total. *)
Theorem counts_add_up (log : list CheckResult) :
  let s := computeSummaryForResults log in
  successful s + failed s = totalChecks s /\
  0 <= successful s <= totalChecks s /\
  0 <= failed s <= totalChecks s.
Proof.
  cbv zeta. destruct (counts_eq log) as (-> & -> & ->).
  pose proof (count_successes_bounds log). lia.
Qed.

Lemma count_successes_all (log : list CheckResult) :
  Forall (fun r => success r = true) log -> count_successes log = length_of log.
Proof.
  unfold length_of.
  induction 1 as [|r rest Hr _ IH]; cbn [count_successes List.length]; [reflexivity|].
  rewrite Hr, IH, Nat2Z.inj_succ. lia.
Qed.

Lemma count_successes_none (log : list CheckResult) :
  Forall (fun r => success r = false) log -> count_successes log = 0.
Proof.
  induction 1 as [|r rest Hr _ IH]; cbn [count_successes]; [reflexivity|].
  rewrite Hr, IH. reflexivity.
Qed.

(** A number divided by itself is 1. *)
Lemma div_self (m : positive) (e : Z) :
  (2 ^ 52 <= Zpos m < 2 ^ 53)%Z ->
  div (S754_finite false m e) (S754_finite false m e) = of_Z 1.
Proof.
  intros Hm.
  assert (Hd : Zpos (digits2_pos m) = 53%Z) by (apply digits2_pos_unique; exact Hm).
  unfold div, SFdiv, SFdiv_core_binary. rewrite !Zdigits2_pos, Hd.
  replace (53 + e - (53 + e))%Z with 0%Z by lia.
  replace (e - e)%Z with 0%Z by lia.
  change (Z.min (fexp prec emax 0) 0) with (-53)%Z.
  change (0 - -53)%Z with 53%Z.
  rewrite Z.shiftl_mul_pow2 by lia.
  pose proof (Z_div_mod (Zpos m * 2 ^ 53) (Zpos m) ltac:(lia)) as Hdm.
  destruct (Z.div_eucl (Zpos m * 2 ^ 53) (Zpos m)) as [q r].
  destruct Hdm as [Hq Hr].
  assert (Hq53 : q = (2 ^ 53)%Z) by nia.
  assert (Hr0 : r = 0%Z) by nia.
  subst q r.
  assert (Hloc : new_location (Zpos m) 0 = loc_Exact).
  { unfold new_location, new_location_even, new_location_odd.
    destruct (Z.even (Zpos m)); reflexivity. }
  rewrite Hloc. vm_compute. reflexivity.
Qed.

Lemma percentage_all (N : Z) :
  0 < N < 2 ^ 53 -> percentage N N = of_Z 100.
Proof.
  intros HN. unfold percentage.
  destruct (of_Z_exact N HN) as (m & e & -> & Hm & _).
  rewrite div_self by exact Hm. vm_compute. reflexivity.
Qed.

Lemma percentage_none (N : Z) :
  0 < N < 2 ^ 53 -> percentage 0 N = S754_zero false.
Proof.
  intros HN. unfold percentage.
  destruct (of_Z_exact N HN) as (m & e & -> & _).
  reflexivity.
Qed.

(** X2.  A log in which every check succeeded (and that an array can
    hold) has the uptime percentage "100.00" and no failed check. *)
Theorem all_successful_is_100 (log : list CheckResult) :
  Forall (fun r => success r = true) log ->
  0 < length_of log < 2 ^ 53 ->
  let s := computeSummaryForResults log in
  uptimePercentage s = "100.00"%string /\
  failed s = 0 /\
  successful s = totalChecks s.
Proof.
  intros Hall HN. cbv zeta.
  destruct (counts_eq log) as (Ht & Hs & Hf).
  rewrite Ht, Hs, Hf, uptimePercentage_eq.
  rewrite (count_successes_all log Hall).
  destruct (Z.eqb_spec (length_of log) 0) as [E|_]; [lia|].
  rewrite percentage_all by exact HN.
  split; [vm_compute; reflexivity | split; lia].
Qed.

(** X3.  A log in which no check succeeded has the uptime percentage
    "0.00", no successful check, and the sentinel "N/A" as its average
    response time. *)
Theorem none_successful_is_0 (log : list CheckResult) :
  Forall (fun r => success r = false) log ->
  0 < length_of log < 2 ^ 53 ->
  let s := computeSummaryForResults log in
  uptimePercentage s = "0.00"%string /\
  averageResponseTime s = NA /\
  successful s = 0 /\
  failed s = totalChecks s.
Proof.
  intros Hnone HN. cbv zeta.
  destruct (counts_eq log) as (Ht & Hs & Hf).
  rewrite Ht, Hs, Hf, uptimePercentage_eq, averageResponseTime_eq.
  rewrite (count_successes_none log Hnone).
  destruct (Z.eqb_spec (length_of log) 0) as [E|_]; [lia|].
  rewrite percentage_none by exact HN.
  split; [reflexivity | split; [reflexivity | split; lia]].
Qed.

(** X4.  For a non-empty log the uptime percentage printed lies between
    0.00 and 100.00: it is the two-decimal numeral of n / 100 for an
    integer n from 0 to 10000. *)
Theorem uptime_between_0_and_100 (log : list CheckResult) :
  0 < length_of log < 2 ^ 32 ->
  exists n : Z,
    0 <= n <= 10000 /\
    uptimePercentage (computeSummaryForResults log) = fixed_notation n 2.
Proof.
  intros HN. rewrite uptimePercentage_eq.
  destruct (Z.eqb_spec (length_of log) 0) as [E|_]; [lia|].
  pose proof (count_successes_bounds log) as Hb.
  destruct (percentage_rounded Number_toString (count_successes log) (length_of log) Hb HN)
    as (n & Hn0 & Hn & Hs).
  exists n. split; [|exact Hs]. split; [exact Hn0|]. nia.
Qed.

Lemma length_of_app {A : Type} (a b : list A) :
  length_of (a ++ b) = length_of a + length_of b.
Proof. unfold length_of. rewrite length_app, Nat2Z.inj_add. reflexivity. Qed.

Lemma count_successes_app (a b : list CheckResult) :
  count_successes (a ++ b) = count_successes a + count_successes b.
Proof.
  induction a as [|r a IH]; cbn [app count_successes]; [reflexivity|].
  rewrite IH. lia.
Qed.

Lemma add_successful_times_app (a b : list CheckResult) (acc : number) :
  add_successful_times acc (a ++ b)
  = add_successful_times (add_successful_times acc a) b.
Proof.
  revert acc. induction a as [|r a IH]; intros acc; cbn [app add_successful_times];
    [reflexivity | apply IH].
Qed.

(** X5.  One more record, wherever it is inserted in the log, adds one
    to totalChecks and one to either successful or failed, according to
    its success flag. *)
Theorem one_more_record_counts (l1 l2 : list CheckResult) (r : CheckResult) :
  let s := computeSummaryForResults (l1 ++ r :: l2) in
  let s0 := computeSummaryForResults (l1 ++ l2) in
  totalChecks s = totalChecks s0 + 1 /\
  successful s = successful s0 + (if success r then 1 else 0) /\
  failed s = failed s0 + (if success r then 0 else 1).
Proof.
  cbv zeta.
  destruct (counts_eq (l1 ++ r :: l2)) as (-> & -> & ->).
  destruct (counts_eq (l1 ++ l2)) as (-> & -> & ->).
  rewrite !length_of_app, !count_successes_app.
  change (r :: l2) with ([r] ++ l2).
  rewrite length_of_app, count_successes_app. cbn [count_successes].
  change (length_of [r]) with 1.
  destruct (success r); lia.
Qed.

(** X6.  A failed record never moves the average response time: the
    summary of a log with a failed record inserted anywhere has the
    averageResponseTime of the log without it. *)
Theorem failed_record_keeps_average (l1 l2 : list CheckResult) (r : CheckResult) :
  success r = false ->
  averageResponseTime (computeSummaryForResults (l1 ++ r :: l2))
  = averageResponseTime (computeSummaryForResults (l1 ++ l2)).
Proof.
  intros Hr. rewrite !averageResponseTime_eq.
  rewrite !count_successes_app, !add_successful_times_app.
  cbn [count_successes add_successful_times]. rewrite Hr.
  rewrite Z.add_0_l. reflexivity.
Qed.

Lemma summary_of_parts (l1 l2 : list CheckResult) :
  length_of l1 = length_of l2 ->
  count_successes l1 = count_successes l2 ->
  add_successful_times (of_Z 0) l1 = add_successful_times (of_Z 0) l2 ->
  computeSummaryForResults l1 = computeSummaryForResults l2.
Proof.
  intros Hl Hc Ha.
  pose proof (counts_eq l1) as (T1 & S1 & F1).
  pose proof (counts_eq l2) as (T2 & S2 & F2).
  pose proof (uptimePercentage_eq l1) as U1.
  pose proof (uptimePercentage_eq l2) as U2.
  pose proof (averageResponseTime_eq l1) as A1.
  pose proof (averageResponseTime_eq l2) as A2.
  rewrite Hl, Hc in *. rewrite Ha in A1.
  destruct (computeSummaryForResults l1) as [t1 s1 f1 u1 a1].
  destruct (computeSummaryForResults l2) as [t2 s2 f2 u2 a2].
  cbn [totalChecks successful failed uptimePercentage averageResponseTime] in *.
  congruence.
Qed.

Lemma observed_parts (l1 : list CheckResult) :
  forall l2 : list CheckResult,
  map observed l1 = map observed l2 ->
  length_of l1 = length_of l2 /\
  count_successes l1 = count_successes l2 /\
  forall acc, add_successful_times acc l1 = add_successful_times acc l2.
Proof.
  unfold length_of.
  induction l1 as [|r1 l1 IH]; intros [|r2 l2] H; try discriminate H.
  - auto.
  - cbn [map] in H. unfold observed at 1 3 in H. injection H as Hs Ht Hrest.
    destruct (IH l2 Hrest) as (Hl & Hc & Ha).
    cbn [List.length count_successes add_successful_times].
    rewrite !Nat2Z.inj_succ, Hl, Hc, Hs, Ht.
    repeat split. intros acc. apply Ha.
Qed.

(** X7.  The summary reads nothing of a record but its success flag and
    its response time: two logs that agree on these, record by record,
    have the same summary, whatever their timestamps, status codes and
    error messages. *)
Theorem summary_reads_success_and_time_only (l1 l2 : list CheckResult) :
  map observed l1 = map observed l2 ->
  computeSummaryForResults l1 = computeSummaryForResults l2.
Proof.
  intros H. destruct (observed_parts l1 l2 H) as (Hl & Hc & Ha).
  apply summary_of_parts; auto.
Qed.

Lemma count_successes_perm (l1 l2 : list CheckResult) :
  Permutation l1 l2 -> count_successes l1 = count_successes l2.
Proof.
  induction 1 as [| r l l' _ IH | r r' l | l l' l'' _ IH1 _ IH2];
    cbn [count_successes]; lia.
Qed.

Lemma total_successful_time_perm (l1 l2 : list CheckResult) :
  Permutation l1 l2 -> total_successful_time l1 = total_successful_time l2.
Proof.
  induction 1 as [| r l l' _ IH | r r' l | l l' l'' _ IH1 _ IH2];
    cbn [total_successful_time]; lia.
Qed.

(** X8.  The order of the records does not matter to the counts and to
    the uptime percentage; nor to the average response time, as long as
    the successful records' times are non-negative and add up to less
    than 2^53, so that the additions of the reduce are exact. *)
Theorem summary_order_independent (l1 l2 : list CheckResult) :
  Permutation l1 l2 ->
  let s1 := computeSummaryForResults l1 in
  let s2 := computeSummaryForResults l2 in
  totalChecks s1 = totalChecks s2 /\
  successful s1 = successful s2 /\
  failed s1 = failed s2 /\
  uptimePercentage s1 = uptimePercentage s2 /\
  (Forall (fun r => success r = true -> 0 <= responseTime r) l1 ->
   total_successful_time l1 < 2 ^ 53 ->
   s1 = s2).
Proof.
  intros Hperm. cbv zeta.
  assert (Hl : length_of l1 = length_of l2).
  { unfold length_of. rewrite (Permutation_length Hperm). reflexivity. }
  pose proof (count_successes_perm l1 l2 Hperm) as Hc.
  destruct (counts_eq l1) as (-> & -> & ->).
  destruct (counts_eq l2) as (-> & -> & ->).
  rewrite !uptimePercentage_eq, Hl, Hc.
  repeat split.
  intros Hnn HT. apply summary_of_parts; [exact Hl | exact Hc |].
  assert (Hnn2 : Forall (fun r => success r = true -> 0 <= responseTime r) l2)
    by (eapply Permutation_Forall; eassumption).
  pose proof (total_successful_time_perm l1 l2 Hperm) as Ht.
  rewrite (add_successful_times_exact l1 Hnn 0) by lia.
  rewrite (add_successful_times_exact l2 Hnn2 0) by lia.
  rewrite Ht. reflexivity.
Qed.

(** ** Runs of checkWebsite *)

Lemma reachable_consistent (st : Store) :
  reachable st -> Forall consistent (daySummaries st).
Proof.
  unfold daySummaries.
  induction 1 as [d1 d2 | st p Hreach IH].
  - constructor; [apply consistent_freshDay | constructor].
  - rewrite store_of_checkWebsite.
    constructor; [apply consistent_recorded|].
    unfold rolled, recorded.
    destruct (dayChanged (now p) st); cbn [pastDays]; [exact IH|].
    inversion IH; assumption.
Qed.

Lemma run_checks_last (ps : list Probe) (p : Probe) (st : Store) :
  run_checks (ps ++ [p]) st = store_of (checkWebsite p (run_checks ps st)).
Proof. rewrite run_checks_app. reflexivity. Qed.

Lemma pastDays_after_run (p : Probe) (st : Store) :
  pastDays (store_of (checkWebsite p st))
  = (if dayChanged (now p) st then [currentDayData st] else []) ++ pastDays st.
Proof.
  rewrite store_of_checkWebsite. unfold rolled, recorded.
  destruct (dayChanged (now p) st); reflexivity.
Qed.

(** X9.  Requests that all settle on the active day have their results
    appended to the active log in the order in which they settle (line
    102 pushes after the await, so this is the order of the calls only
    when the requests do not overlap); the key and the archived days are
    left alone, and after at least one run the active summary is the
    summary of that log. *)
Theorem append_order_within_day (ps : list Probe) (st : Store) :
  Forall (fun p => toDateString (now p) = currentDayKey st) ps ->
  let st' := run_checks ps st in
  logs (currentDayData st') = logs (currentDayData st) ++ map checkWebsite_result ps /\
  currentDayKey st' = currentDayKey st /\
  pastDays st' = pastDays st /\
  (ps <> [] ->
   summary (currentDayData st')
   = computeSummaryForResults (logs (currentDayData st) ++ map checkWebsite_result ps)).
Proof.
  intros Hday. cbv zeta.
  destruct (run_checks_same_day Number_toString ps st Hday) as (K & P & _ & L).
  repeat split; try assumption.
  intros Hne. rewrite <- L.
  destruct (exists_last Hne) as (ps' & p & ->).
  rewrite run_checks_last, store_of_checkWebsite. reflexivity.
Qed.

(** X11.  Runs never touch a day once it is archived: after any runs the
    archived days of before are still there, unchanged and in the same
    order, behind at most one new archived day per run. *)
Theorem archived_days_are_frozen (ps : list Probe) (st : Store) :
  exists newer : list DayData,
    pastDays (run_checks ps st) = newer ++ pastDays st /\
    (List.length newer <= List.length ps)%nat.
Proof.
  revert st. induction ps as [|p ps IH]; intros st.
  - exists []. split; [reflexivity | cbn; lia].
  - change (run_checks (p :: ps) st) with (run_checks ps (store_of (checkWebsite p st))).
    destruct (IH (store_of (checkWebsite p st))) as (newer & Hn & Hlen).
    rewrite pastDays_after_run in Hn.
    exists (newer ++ (if dayChanged (now p) st then [currentDayData st] else [])).
    split; [rewrite Hn, app_assoc; reflexivity|].
    rewrite length_app. cbn [List.length].
    destruct (dayChanged (now p) st); cbn [List.length]; lia.
Qed.

(** X12.  Only the start-up day can be archived empty: in every
    reachable store all archived days but the oldest hold at least one
    record, and the active log is empty only before the first run. *)
Theorem only_startup_day_archived_empty (st : Store) :
  reachable st ->
  Forall (fun d => logs d <> []) (removelast (pastDays st)) /\
  (logs (currentDayData st) = [] -> pastDays st = []).
Proof.
  induction 1 as [d1 d2 | st p Hreach [IHpast IHcur]].
  - split; [constructor | reflexivity].
  - split.
    + rewrite pastDays_after_run.
      destruct (dayChanged (now p) st); [|exact IHpast].
      cbn [app]. destruct (pastDays st) as [|d rest] eqn:Hpast.
      * constructor.
      * change (removelast (currentDayData st :: d :: rest))
          with (currentDayData st :: removelast (d :: rest)).
        constructor; [|exact IHpast].
        intros Hempty. specialize (IHcur Hempty). discriminate IHcur.
    + rewrite store_of_checkWebsite. unfold recorded; cbn [currentDayData logs].
      intros Hempty. apply app_eq_nil in Hempty as [_ Hempty]. discriminate Hempty.
Qed.

(** X13.  After every run currentDayKey names the day of that run, with
    or without rollover. *)
Theorem key_names_day_of_last_run (st : Store) (p : Probe) :
  currentDayKey (store_of (checkWebsite p st)) = toDateString (now p).
Proof.
  rewrite store_of_checkWebsite. unfold rolled, recorded, dayChanged.
  destruct (String.eqb_spec (toDateString (now p)) (currentDayKey st)) as [E|NE];
    cbn [negb currentDayKey]; [symmetry; exact E | reflexivity].
Qed.

(** X14.  Beside the day lists, a run broadcasts exactly two events, in
    this order: newCheck with the result, then summaryUpdate with the
    summary of the active log the result was appended to; the run ends
    with the dailySummaryUpdate of the store it leaves. *)
Theorem one_newCheck_then_one_summaryUpdate (st : Store) (p : Probe) :
  let run := checkWebsite p st in
  without_daily (events_of run)
  = [newCheck (checkWebsite_result p);
     summaryUpdate (computeSummaryForResults (logs (currentDayData (store_of run))))] /\
  last (events_of run) (newCheck (checkWebsite_result p))
  = dailySummaryUpdate (daySummaries (store_of run)).
Proof.
  cbv zeta. rewrite checkWebsite_run. unfold events_of, store_of; cbn [fst snd].
  split.
  - unfold without_daily. rewrite filter_app.
    destruct (dayChanged (now p) st); reflexivity.
  - destruct (dayChanged (now p) st); reflexivity.
Qed.

(** X15.  What a connecting client is sent is consistent in itself, in
    every reachable store: the summary is the summary of the check
    results sent, the first day of the list is the active day with these
    results and this summary, and every day of the list carries the
    summary of its own log. *)
Theorem connection_snapshot_consistent (st : Store) :
  reachable st ->
  exists (active : DayData) (archived : list DayData),
    connection st
    = currentState (logs active) (summary active) (active :: archived) /\
    summary active = computeSummaryForResults (logs active) /\
    Forall consistent (active :: archived) /\
    archived = pastDays st.
Proof.
  intros Hreach. pose proof (reachable_consistent st Hreach) as Hc.
  exists (currentDayData st), (pastDays st).
  split; [reflexivity|]. split; [|split; [exact Hc | reflexivity]].
  unfold daySummaries in Hc. inversion Hc; assumption.
Qed.

(** ** The two variants side by side *)

Lemma rolling_checkWebsite_run (p : Probe) (results : list CheckResult) :
  RollingList.checkWebsite Number_toString p results
  = (VUndefined, results ++ [checkWebsite_result p],
     [newCheck (checkWebsite_result p);
      summaryUpdate (computeSummaryForResults (results ++ [checkWebsite_result p]))]).
Proof. unfold RollingList.checkWebsite. reflexivity. Qed.

Lemma without_daily_run (p : Probe) (st : Store) :
  without_daily (events_of (checkWebsite p st))
  = [newCheck (checkWebsite_result p);
     summaryUpdate (computeSummaryForResults
                      (logs (currentDayData (rolled (now p) st)) ++ [checkWebsite_result p]))].
Proof.
  rewrite checkWebsite_run. unfold events_of; cbn [snd].
  unfold without_daily. rewrite filter_app.
  destruct (dayChanged (now p) st); reflexivity.
Qed.

Lemma events_of_checks_cons (p : Probe) (ps : list Probe) (st : Store) :
  events_of_checks (p :: ps) st
  = events_of (checkWebsite p st) ++ events_of_checks ps (store_of (checkWebsite p st)).
Proof. reflexivity. Qed.

Lemma run_checks_cons (p : Probe) (ps : list Probe) (st : Store) :
  run_checks (p :: ps) st = run_checks ps (store_of (checkWebsite p st)).
Proof. reflexivity. Qed.

Lemma rolling_run_checks_cons (p : Probe) (ps : list Probe) (results : list CheckResult) :
  RollingList.run_checks Number_toString (p :: ps) results
  = (fst (RollingList.run_checks Number_toString ps (results ++ [checkWebsite_result p])),
     [newCheck (checkWebsite_result p);
      summaryUpdate (computeSummaryForResults (results ++ [checkWebsite_result p]))]
     ++ snd (RollingList.run_checks Number_toString ps (results ++ [checkWebsite_result p]))).
Proof.
  cbn [RollingList.run_checks]. rewrite rolling_checkWebsite_run.
  destruct (RollingList.run_checks Number_toString ps (results ++ [checkWebsite_result p]));
    reflexivity.
Qed.

Lemma without_daily_app (a b : list Event) :
  without_daily (a ++ b) = without_daily a ++ without_daily b.
Proof. unfold without_daily. apply filter_app. Qed.

(** X16.  Within one day the two variants of the server agree: for runs
    that all fall on the active day, the rolling-list variant started on
    the active log ends with the active log of the day-bucketed variant,
    and broadcasts the same newCheck and summaryUpdate events in the same
    order. *)
Theorem variants_agree_within_day (ps : list Probe) (st : Store) :
  Forall (fun p => toDateString (now p) = currentDayKey st) ps ->
  RollingList.run_checks Number_toString ps (logs (currentDayData st))
  = (logs (currentDayData (run_checks ps st)),
     without_daily (events_of_checks ps st)).
Proof.
  revert st. induction ps as [|p ps IH]; intros st Hday; [reflexivity|].
  inversion Hday as [|? ? Hp Hps]; subst.
  assert (Hsame : dayChanged (now p) st = false).
  { unfold dayChanged. rewrite Hp, String.eqb_refl. reflexivity. }
  assert (Hst : store_of (checkWebsite p st) = recorded (checkWebsite_result p) st).
  { rewrite store_of_checkWebsite. unfold rolled. rewrite Hsame. reflexivity. }
  rewrite rolling_run_checks_cons, run_checks_cons, events_of_checks_cons.
  rewrite without_daily_app, without_daily_run.
  unfold rolled. rewrite Hsame.
  specialize (IH (store_of (checkWebsite p st))).
  rewrite Hst in IH |- *.
  unfold recorded at 1 2 in IH. cbn [currentDayData logs currentDayKey] in IH.
  rewrite IH by exact Hps. reflexivity.
Qed.

(** X17.  The rolling-list variant keeps every result for the life of
    the process, whatever the days of the runs: after any runs its array
    is the old array followed by the results in the order in which the
    requests settled (line 202 pushes after the await); each run
    broadcasts two events and never a day list. *)
Theorem rolling_list_keeps_everything (ps : list Probe) (results : list CheckResult) :
  let run := RollingList.run_checks Number_toString ps results in
  fst run = results ++ map checkWebsite_result ps /\
  List.length (snd run) = (2 * List.length ps)%nat /\
  dailyPayloads (snd run) = [].
Proof.
  cbv zeta. revert results.
  induction ps as [|p ps IH]; intros results.
  - cbn. rewrite app_nil_r. auto.
  - rewrite rolling_run_checks_cons. cbn [fst snd].
    destruct (IH (results ++ [checkWebsite_result p])) as (Hf & Hl & Hd).
    rewrite Hf, <- app_assoc. cbn [app map List.length dailyPayloads].
    rewrite Hl, Hd. repeat split. lia.
Qed.

(** ** The dashboard behind the server *)

Lemma firstn_app_firstn {A : Type} (n : nat) (a b : list A) :
  firstn n (a ++ firstn n b) = firstn n (a ++ b).
Proof.
  rewrite !firstn_app, firstn_firstn.
  replace (Nat.min (n - List.length a) n) with (n - List.length a)%nat by lia.
  reflexivity.
Qed.

Lemma deliver_app (ms1 ms2 : list Message) (c : App.State) :
  App.deliver (ms1 ++ ms2) c = App.deliver ms2 (App.deliver ms1 c).
Proof. unfold App.deliver. apply fold_left_app. Qed.

Lemma deliver_run (p : Probe) (st : Store) (c : App.State) :
  App.deliver (map Broadcast (events_of (checkWebsite p st))) c
  = {| App.checkResults := firstn 100 (checkWebsite_result p :: App.checkResults c);
       App.summary := summary (currentDayData (store_of (checkWebsite p st)));
       App.dailySummaries := daySummaries (store_of (checkWebsite p st)) |}.
Proof.
  rewrite checkWebsite_run. unfold events_of, store_of; cbn [fst snd].
  destruct (dayChanged (now p) st);
    cbn [app map App.deliver fold_left App.on App.checkResults App.summary
         App.dailySummaries App.slice0];
    reflexivity.
Qed.

(** X18.  Once the events of a run are delivered, in order, the
    dashboard shows the server's active summary and the server's list of
    days, whatever it showed before; the result is the first of its
    recent checks, of which it keeps 100 at most. *)
Theorem dashboard_in_sync_after_run (p : Probe) (st : Store) (c : App.State) :
  let st' := store_of (checkWebsite p st) in
  let c' := App.deliver (map Broadcast (events_of (checkWebsite p st))) c in
  App.summary c' = summary (currentDayData st') /\
  App.dailySummaries c' = daySummaries st' /\
  App.checkResults c' = firstn 100 (checkWebsite_result p :: App.checkResults c) /\
  (List.length (App.checkResults c') <= 100)%nat.
Proof.
  cbv zeta. rewrite deliver_run. cbn [App.summary App.dailySummaries App.checkResults].
  repeat split. apply firstn_le_length.
Qed.

Lemma deliver_runs (ps : list Probe) :
  forall (st : Store) (c : App.State),
  App.deliver (map Broadcast (events_of_checks ps st)) c
  = match ps with
    | [] => c
    | _ :: _ =>
        {| App.checkResults :=
             firstn 100 (rev (map checkWebsite_result ps) ++ App.checkResults c);
           App.summary := summary (currentDayData (run_checks ps st));
           App.dailySummaries := daySummaries (run_checks ps st) |}
    end.
Proof.
  induction ps as [|p ps IH]; intros st c; [reflexivity|].
  rewrite events_of_checks_cons, map_app, deliver_app, deliver_run, run_checks_cons.
  rewrite IH. destruct ps as [|q ps]; [reflexivity|].
  cbn [App.checkResults]. f_equal.
  rewrite firstn_app_firstn.
  change (map checkWebsite_result (p :: q :: ps))
    with (checkWebsite_result p :: map checkWebsite_result (q :: ps)).
  cbn [rev]. rewrite <- !app_assoc. reflexivity.
Qed.

(** X19.  A dashboard that connects and then receives the events of the
    following runs shows the server's active summary and list of days.
    Its recent checks are the log it was sent on connection, in full and
    oldest first, until the first run; from then on they are the new
    results, newest first, ahead of that log, cut to 100 entries.  The
    list of days is then never empty, so the "no daily summaries" notice
    shows only before the first message. *)
Theorem dashboard_after_connection (ps : list Probe) (st : Store) (c : App.State) :
  let c' := App.deliver (connection st :: map Broadcast (events_of_checks ps st)) c in
  App.summary c' = summary (currentDayData (run_checks ps st)) /\
  App.dailySummaries c' = daySummaries (run_checks ps st) /\
  App.checkResults c'
  = match ps with
    | [] => logs (currentDayData st)
    | _ :: _ => firstn 100 (rev (map checkWebsite_result ps) ++ logs (currentDayData st))
    end /\
  App.showsNoSummaries c' = false /\
  App.showsNoSummaries App.initial = true.
Proof.
  cbv zeta.
  change (App.deliver (connection st :: map Broadcast (events_of_checks ps st)) c)
    with (App.deliver (map Broadcast (events_of_checks ps st))
            (App.on (connection st) c)).
  rewrite deliver_runs. destruct ps as [|p ps]; repeat split.
Qed.

(** ** The shape of the printed numbers *)

Lemma string_length_append (a b : string) :
  String.length (a ++ b) = (String.length a + String.length b)%nat.
Proof.
  induction a as [|c a IH]; cbn [append String.length]; [reflexivity|].
  rewrite IH. reflexivity.
Qed.

Lemma substring_length (s : string) :
  forall a b : nat,
  (a + b <= String.length s)%nat -> String.length (substring a b s) = b.
Proof.
  induction s as [|c s IH]; intros a b H; cbn [String.length] in H.
  - assert (a = O) by lia. assert (b = O) by lia. subst. reflexivity.
  - destruct a as [|a]; destruct b as [|b]; cbn [substring String.length].
    + reflexivity.
    + rewrite IH by lia. reflexivity.
    + apply IH. lia.
    + apply IH. lia.
Qed.

Lemma zeros_length (k : nat) : String.length (zeros k) = k.
Proof. induction k as [|k IH]; cbn [zeros String.length]; [reflexivity | now rewrite IH]. Qed.

Lemma decimal_digits_nonempty (n : Z) : (1 <= String.length (decimal_digits n))%nat.
Proof.
  unfold decimal_digits.
  destruct (N.to_uint (Z.to_N n)); cbn [NilZero.string_of_uint NilEmpty.string_of_uint String.length];
    lia.
Qed.

Lemma all_digits_append (a b : string) :
  all_digits (a ++ b) = all_digits a && all_digits b.
Proof.
  induction a as [|c a IH]; cbn [append all_digits]; [reflexivity|].
  rewrite IH. apply andb_assoc.
Qed.

Lemma all_digits_substring (s : string) :
  forall a b : nat, all_digits s = true -> all_digits (substring a b s) = true.
Proof.
  induction s as [|c s IH]; intros a b H.
  - destruct a, b; reflexivity.
  - cbn [all_digits] in H. apply andb_prop in H as [Hc Hs].
    destruct a as [|a]; destruct b as [|b]; cbn [substring all_digits].
    + reflexivity.
    + rewrite Hc. apply IH. exact Hs.
    + apply IH. exact Hs.
    + apply IH. exact Hs.
Qed.

Lemma all_digits_zeros (k : nat) : all_digits (zeros k) = true.
Proof. induction k as [|k IH]; cbn [zeros all_digits]; [reflexivity | now rewrite IH]. Qed.

Lemma all_digits_string_of_uint (d : Decimal.uint) :
  all_digits (NilEmpty.string_of_uint d) = true.
Proof.
  induction d as [|d IH|d IH|d IH|d IH|d IH|d IH|d IH|d IH|d IH|d IH];
    cbn [NilEmpty.string_of_uint all_digits]; [reflexivity|..];
    rewrite IH; reflexivity.
Qed.

Lemma all_digits_decimal_digits (n : Z) : all_digits (decimal_digits n) = true.
Proof.
  unfold decimal_digits.
  destruct (N.to_uint (Z.to_N n)) as [|d|d|d|d|d|d|d|d|d|d] eqn:E;
    unfold NilZero.string_of_uint; [reflexivity|..];
    apply all_digits_string_of_uint.
Qed.

(** The test accepts exactly the strings of the shape. *)
Lemma two_decimals_after_spec (s : string) :
  forall seen : bool,
  two_decimals_after seen s = true <->
  exists whole frac : string,
    s = (whole ++ "." ++ frac)%string /\
    (seen = true \/ (1 <= String.length whole)%nat) /\ all_digits whole = true /\
    String.length frac = 2%nat /\ all_digits frac = true.
Proof.
  induction s as [|c s IH]; intros seen; cbn [two_decimals_after].
  - split; [discriminate|].
    intros (whole & frac & E & _). destruct whole; discriminate.
  - destruct (is_digit c) eqn:Hc.
    + rewrite IH. split.
      * intros (whole & frac & -> & _ & Hw & Hl & Hf).
        exists (String c whole), frac. cbn [append String.length all_digits].
        rewrite Hc, Hw. split; [reflexivity|]. split; [right; lia|].
        split; [reflexivity|]. split; assumption.
      * intros (whole & frac & E & _ & Hw & Hl & Hf).
        destruct whole as [|c' whole]; cbn [append] in E; injection E as -> ->.
        -- discriminate.
        -- cbn [all_digits] in Hw. apply andb_prop in Hw as [_ Hw].
           exists whole, frac. split; [reflexivity|]. split; [left; reflexivity|].
           split; [assumption|]. split; assumption.
    + split.
      * intros H. apply andb_prop in H as [H Hd]. apply andb_prop in H as [H Hl].
        apply andb_prop in H as [Hs Hp].
        apply Ascii.eqb_eq in Hp. apply Nat.eqb_eq in Hl. subst c.
        exists EmptyString, s. split; [reflexivity|]. split; [left; assumption|].
        split; [reflexivity|]. split; assumption.
      * intros (whole & frac & E & Hs & Hw & Hl & Hf).
        destruct whole as [|c' whole]; cbn [append] in E; injection E as -> ->.
        -- destruct Hs as [-> | Hs]; [|cbn in Hs; lia].
           rewrite Hl, Hf. reflexivity.
        -- cbn [all_digits] in Hw. rewrite Hc in Hw. discriminate.
Qed.

Lemma is_two_decimal_numeral_spec (s : string) :
  is_two_decimal_numeral s = true <-> has_two_decimals s.
Proof.
  unfold is_two_decimal_numeral, has_two_decimals.
  rewrite two_decimals_after_spec. split.
  - intros (whole & frac & E & [H | H] & Hw & Hl & Hf); [discriminate|].
    exists whole, frac. tauto.
  - intros (whole & frac & E & H & Hw & Hl & Hf). exists whole, frac. tauto.
Qed.

Lemma fixed_notation_two_decimals (n : Z) : has_two_decimals (fixed_notation n 2).
Proof.
  unfold fixed_notation.
  set (m0 := decimal_digits n).
  pose proof (decimal_digits_nonempty n) as H0. fold m0 in H0.
  pose proof (all_digits_decimal_digits n) as D0. fold m0 in D0.
  set (m := if Nat.leb (String.length m0) 2
            then (zeros (2 + 1 - String.length m0) ++ m0)%string else m0).
  assert (Hm : (3 <= String.length m)%nat).
  { unfold m. destruct (Nat.leb_spec (String.length m0) 2) as [Hle | Hgt].
    - rewrite string_length_append, zeros_length. lia.
    - lia. }
  assert (Dm : all_digits m = true).
  { unfold m. destruct (Nat.leb (String.length m0) 2); [|exact D0].
    rewrite all_digits_append, all_digits_zeros, D0. reflexivity. }
  exists (substring 0 (String.length m - 2) m), (substring (String.length m - 2) 2 m).
  split; [reflexivity|].
  rewrite !substring_length by lia.
  rewrite !all_digits_substring by exact Dm.
  repeat split; lia.
Qed.

(** X22.  Whenever the uptime percentage is a number it is printed as
    one or more decimal digits, a point and exactly two decimal digits,
    and so is the average response time when the successful records'
    times are non-negative and add up to less than 2^45 ms; the test
    [is_two_decimal_numeral] accepts both strings. *)
Theorem summary_numbers_have_two_decimals (log : list CheckResult) :
  0 < length_of log < 2 ^ 32 ->
  let s := computeSummaryForResults log in
  (has_two_decimals (uptimePercentage s) /\
   is_two_decimal_numeral (uptimePercentage s) = true) /\
  (0 < count_successes log ->
   Forall (fun r => success r = true -> 0 <= responseTime r) log ->
   total_successful_time log < 2 ^ 45 ->
   has_two_decimals (averageResponseTime s) /\
   is_two_decimal_numeral (averageResponseTime s) = true).
Proof.
  intros HN. cbv zeta. pose proof (count_successes_bounds log) as Hb. split.
  - rewrite uptimePercentage_eq.
    destruct (Z.eqb_spec (length_of log) 0) as [E|_]; [lia|].
    destruct (percentage_rounded Number_toString (count_successes log) (length_of log) Hb HN)
      as (n & _ & _ & ->).
    split; [|apply is_two_decimal_numeral_spec]; apply fixed_notation_two_decimals.
  - intros HS Hnn HT. rewrite averageResponseTime_eq.
    destruct (Z.ltb_spec 0 (count_successes log)) as [_|Hle]; [|lia].
    pose proof (total_successful_time_nonneg log Hnn) as HT0.
    assert (H45 : 2 ^ 45 < 2 ^ 53) by reflexivity.
    assert (H32 : 2 ^ 32 < 2 ^ 53) by reflexivity.
    rewrite (add_successful_times_exact log Hnn 0) by lia.
    rewrite Z.add_0_l.
    destruct (mean_rounded Number_toString (total_successful_time log) (count_successes log))
      as (n & _ & _ & ->); [lia | lia |].
    split; [|apply is_two_decimal_numeral_spec]; apply fixed_notation_two_decimals.
Qed.

End FurtherProperties.

(** ** More on the timer *)



(** The bound is sharp here too: requests that take exactly two
    intervals leave three probes pending at the second tick. *)
Example requests_of_two_whole_intervals :
  probes_in_flight [120000; 120000; 100] 120000 = 3%nat /\
  probes_in_flight [119999; 119999; 100] 119999 = 2%nat /\
  probes_in_flight [119999; 119999; 100] 120000 = 2%nat.
Proof. repeat split; reflexivity. Qed.

Lemma two_in_flight_from (i : nat) :
  forall (durations : list Z) (k : nat) (t d d' : Z),
  nth_error durations i = Some d ->
  nth_error durations (S i) = Some d' ->
  in_flight_at t (k + i) d = true ->
  in_flight_at t (k + S i) d' = true ->
  (2 <= probes_in_flight_from k durations t)%nat.
Proof.
  induction i as [|i IH]; intros durations k t d d' H1 H2 F1 F2.
  - destruct durations as [|x [|y rest]]; try discriminate.
    cbn in H1, H2. injection H1 as ->. injection H2 as ->.
    rewrite Nat.add_0_r in F1. rewrite Nat.add_1_r in F2.
    cbn [probes_in_flight_from]. rewrite F1, F2. lia.
  - destruct durations as [|x rest]; [discriminate|].
    cbn [nth_error] in H1, H2. cbn [probes_in_flight_from].
    assert (2 <= probes_in_flight_from (S k) rest t)%nat.
    { apply (IH rest (S k) t d d' H1 H2).
      - replace (S k + i)%nat with (k + S i)%nat by lia. exact F1.
      - replace (S k + S i)%nat with (k + S (S i))%nat by lia. exact F2. }
    lia.
Qed.

(** X21.  A request that outlasts the tick interval does overlap the
    next one: when invocation k takes longer than CHECK_INTERVAL and the
    next request takes any time at all, two probes are in flight at the
    moment the timer starts invocation k + 1. *)
Theorem probe_outlasting_interval_overlaps (durations : list Z) (k : nat) (d d' : Z) :
  nth_error durations k = Some d ->
  nth_error durations (S k) = Some d' ->
  CHECK_INTERVAL < d ->
  0 < d' ->
  (2 <= probes_in_flight durations (invocation_time (S k)))%nat.
Proof.
  intros H1 H2 Hd Hd'. unfold probes_in_flight.
  apply (two_in_flight_from k durations 0 _ d d' H1 H2).
  - unfold in_flight_at. cbn [Nat.add]. rewrite invocation_time_succ.
    apply andb_true_intro. split; apply Z.leb_le;
      unfold CHECK_INTERVAL in *; lia.
  - unfold in_flight_at. cbn [Nat.add].
    apply andb_true_intro. split; apply Z.leb_le; lia.
Qed.

(** Requests that settle in less than the interval settle in the order
    of the calls; one that outlasts the interval can settle after a later
    call's, and is then logged after it. *)
Lemma settle_in_call_order (k : nat) (d d' : Z) :
  d < CHECK_INTERVAL -> 0 <= d' -> settle_time k d < settle_time (S k) d'.
Proof. unfold settle_time. rewrite invocation_time_succ. lia. Qed.

Example later_call_settles_first : settle_time 1 100 < settle_time 0 70000.
Proof. reflexivity. Qed.

(** ** Concrete runs for the further properties *)

Lemma all_successful_is_100_witness :
  Forall (fun r => success r = true) two_successes /\
  0 < length_of two_successes < 2 ^ 53 /\
  uptimePercentage (computeSummaryForResults sample_toString two_successes)
    = "100.00"%string /\
  failed (computeSummaryForResults sample_toString two_successes) = 0 /\
  successful (computeSummaryForResults sample_toString two_successes)
    = totalChecks (computeSummaryForResults sample_toString two_successes).
Proof.
  assert (H1 : Forall (fun r => success r = true) two_successes)
    by (repeat constructor).
  assert (H2 : 0 < length_of two_successes < 2 ^ 53) by (split; reflexivity).
  split; [exact H1|]. split; [exact H2|].
  exact (all_successful_is_100 sample_toString two_successes H1 H2).
Defined.

Lemma none_successful_is_0_witness :
  Forall (fun r => success r = false) two_failures /\
  0 < length_of two_failures < 2 ^ 53 /\
  uptimePercentage (computeSummaryForResults sample_toString two_failures)
    = "0.00"%string /\
  averageResponseTime (computeSummaryForResults sample_toString two_failures) = NA /\
  successful (computeSummaryForResults sample_toString two_failures) = 0 /\
  failed (computeSummaryForResults sample_toString two_failures)
    = totalChecks (computeSummaryForResults sample_toString two_failures).
Proof.
  assert (H1 : Forall (fun r => success r = false) two_failures)
    by (repeat constructor).
  assert (H2 : 0 < length_of two_failures < 2 ^ 53) by (split; reflexivity).
  split; [exact H1|]. split; [exact H2|].
  exact (none_successful_is_0 sample_toString two_failures H1 H2).
Defined.

Lemma uptime_between_0_and_100_witness :
  0 < length_of three_results < 2 ^ 32 /\
  exists n : Z,
    0 <= n <= 10000 /\
    uptimePercentage (computeSummaryForResults sample_toString three_results)
      = fixed_notation n 2.
Proof.
  assert (H : 0 < length_of three_results < 2 ^ 32) by (split; reflexivity).
  split; [exact H|].
  exact (uptime_between_0_and_100 sample_toString three_results H).
Defined.

Lemma failed_record_keeps_average_witness :
  success (checkWebsite_result (probe_timeout monday)) = false /\
  averageResponseTime
    (computeSummaryForResults sample_toString
       ([checkWebsite_result (probe_ok monday 100)]
        ++ checkWebsite_result (probe_timeout monday)
        :: [checkWebsite_result (probe_ok monday 300)]))
  = averageResponseTime
      (computeSummaryForResults sample_toString
         ([checkWebsite_result (probe_ok monday 100)]
          ++ [checkWebsite_result (probe_ok monday 300)])).
Proof.
  assert (H : success (checkWebsite_result (probe_timeout monday)) = false)
    by reflexivity.
  split; [exact H|].
  exact (failed_record_keeps_average sample_toString _ _ _ H).
Defined.

Lemma summary_reads_success_and_time_only_witness :
  map observed [checkWebsite_result (probe_ok monday 100)]
  = map observed [checkWebsite_result (mkProbe 5000 (Fulfilled 301) 5100 tuesday friday)] /\
  computeSummaryForResults sample_toString [checkWebsite_result (probe_ok monday 100)]
  = computeSummaryForResults sample_toString
      [checkWebsite_result (mkProbe 5000 (Fulfilled 301) 5100 tuesday friday)].
Proof.
  assert (H : map observed [checkWebsite_result (probe_ok monday 100)]
              = map observed
                  [checkWebsite_result (mkProbe 5000 (Fulfilled 301) 5100 tuesday friday)])
    by reflexivity.
  split; [exact H|].
  exact (summary_reads_success_and_time_only sample_toString _ _ H).
Defined.

Lemma summary_order_independent_witness :
  Permutation three_results (rev three_results) /\
  Forall (fun r => success r = true -> 0 <= responseTime r) three_results /\
  total_successful_time three_results < 2 ^ 53 /\
  computeSummaryForResults sample_toString three_results
  = computeSummaryForResults sample_toString (rev three_results).
Proof.
  assert (H1 : Permutation three_results (rev three_results))
    by (apply Permutation_rev).
  assert (H2 : Forall (fun r => success r = true -> 0 <= responseTime r) three_results).
  { repeat constructor; intros _; vm_compute; discriminate. }
  assert (H3 : total_successful_time three_results < 2 ^ 53) by reflexivity.
  split; [exact H1|]. split; [exact H2|]. split; [exact H3|].
  exact (proj2 (proj2 (proj2 (proj2
           (summary_order_independent sample_toString _ _ H1)))) H2 H3).
Defined.

Lemma append_order_within_day_witness :
  Forall (fun p => toDateString (now p) = currentDayKey store_monday) monday_probes /\
  monday_probes <> [] /\
  logs (currentDayData (run_checks sample_toString monday_probes store_monday))
  = logs (currentDayData store_monday) ++ map checkWebsite_result monday_probes /\
  summary (currentDayData (run_checks sample_toString monday_probes store_monday))
  = computeSummaryForResults sample_toString
      (logs (currentDayData store_monday) ++ map checkWebsite_result monday_probes).
Proof.
  assert (H1 : Forall (fun p => toDateString (now p) = currentDayKey store_monday)
                 monday_probes)
    by (repeat constructor).
  assert (H2 : monday_probes <> []) by discriminate.
  split; [exact H1|]. split; [exact H2|].
  split.
  - exact (proj1 (append_order_within_day sample_toString monday_probes store_monday H1)).
  - exact (proj2 (proj2 (proj2
             (append_order_within_day sample_toString monday_probes store_monday H1))) H2).
Defined.

Lemma single_rollover_per_day_boundary_witness :
  Forall (fun q => toDateString (now q) = currentDayKey store_monday) monday_probes /\
  toDateString (now (probe_ok tuesday 120)) <> currentDayKey store_monday /\
  Forall (fun q => toDateString (now q) = toDateString (now (probe_ok tuesday 120)))
    tuesday_probes /\
  pastDays (run_checks sample_toString
              (monday_probes ++ probe_ok tuesday 120 :: tuesday_probes) store_monday)
  = currentDayData (run_checks sample_toString monday_probes store_monday)
    :: pastDays store_monday /\
  logs (currentDayData (run_checks sample_toString
          (monday_probes ++ probe_ok tuesday 120 :: tuesday_probes) store_monday))
  = map checkWebsite_result (probe_ok tuesday 120 :: tuesday_probes).
Proof.
  assert (H1 : Forall (fun q => toDateString (now q) = currentDayKey store_monday)
                 monday_probes)
    by (repeat constructor).
  assert (H2 : toDateString (now (probe_ok tuesday 120)) <> currentDayKey store_monday)
    by (vm_compute; discriminate).
  assert (H3 : Forall (fun q => toDateString (now q)
                                = toDateString (now (probe_ok tuesday 120)))
                 tuesday_probes)
    by (repeat constructor).
  split; [exact H1|]. split; [exact H2|]. split; [exact H3|].
  split.
  - exact (proj1 (single_rollover_per_day_boundary sample_toString
                    monday_probes tuesday_probes (probe_ok tuesday 120) store_monday
                    H1 H2 H3)).
  - exact (proj2 (proj2 (proj2 (single_rollover_per_day_boundary sample_toString
                    monday_probes tuesday_probes (probe_ok tuesday 120) store_monday
                    H1 H2 H3)))).
Defined.

Lemma only_startup_day_archived_empty_witness :
  reachable sample_toString
    (store_of (checkWebsite sample_toString (probe_ok tuesday 120)
                 (initialStore monday monday))) /\
  Forall (fun d => logs d <> [])
    (removelast (pastDays
       (store_of (checkWebsite sample_toString (probe_ok tuesday 120)
                    (initialStore monday monday))))) /\
  (logs (currentDayData
           (store_of (checkWebsite sample_toString (probe_ok tuesday 120)
                        (initialStore monday monday)))) = [] ->
   pastDays (store_of (checkWebsite sample_toString (probe_ok tuesday 120)
                         (initialStore monday monday))) = []).
Proof.
  assert (H : reachable sample_toString
                (store_of (checkWebsite sample_toString (probe_ok tuesday 120)
                             (initialStore monday monday))))
    by (apply reachable_check, reachable_start).
  split; [exact H|].
  exact (only_startup_day_archived_empty sample_toString _ H).
Defined.

Lemma connection_snapshot_consistent_witness :
  reachable sample_toString store_monday /\
  exists (active : DayData) (archived : list DayData),
    connection store_monday
    = currentState (logs active) (summary active) (active :: archived) /\
    summary active = computeSummaryForResults sample_toString (logs active) /\
    Forall (consistent sample_toString) (active :: archived) /\
    archived = pastDays store_monday.
Proof.
  assert (H : reachable sample_toString store_monday)
    by (repeat apply reachable_check; apply reachable_start).
  split; [exact H|].
  exact (connection_snapshot_consistent sample_toString store_monday H).
Defined.

Lemma variants_agree_within_day_witness :
  Forall (fun p => toDateString (now p) = currentDayKey store_monday) monday_probes /\
  RollingList.run_checks sample_toString monday_probes (logs (currentDayData store_monday))
  = (logs (currentDayData (run_checks sample_toString monday_probes store_monday)),
     without_daily (events_of_checks sample_toString monday_probes store_monday)).
Proof.
  assert (H : Forall (fun p => toDateString (now p) = currentDayKey store_monday)
                monday_probes)
    by (repeat constructor).
  split; [exact H|].
  exact (variants_agree_within_day sample_toString monday_probes store_monday H).
Defined.


Lemma probe_outlasting_interval_overlaps_witness :
  nth_error [70000; 100] 0 = Some 70000 /\
  nth_error [70000; 100] 1 = Some 100 /\
  CHECK_INTERVAL < 70000 /\
  0 < 100 /\
  (2 <= probes_in_flight [70000; 100]%Z (invocation_time 1))%nat.
Proof.
  assert (H1 : nth_error [70000; 100] 0 = Some 70000) by reflexivity.
  assert (H2 : nth_error [70000; 100] 1 = Some 100) by reflexivity.
  assert (H3 : CHECK_INTERVAL < 70000) by reflexivity.
  assert (H4 : 0 < 100) by reflexivity.
  repeat (split; [assumption|]).
  exact (probe_outlasting_interval_overlaps [70000; 100] 0 70000 100 H1 H2 H3 H4).
Defined.

Lemma summary_numbers_have_two_decimals_witness :
  0 < length_of three_results < 2 ^ 32 /\
  0 < count_successes three_results /\
  Forall (fun r => success r = true -> 0 <= responseTime r) three_results /\
  total_successful_time three_results < 2 ^ 45 /\
  (has_two_decimals
     (uptimePercentage (computeSummaryForResults sample_toString three_results)) /\
   is_two_decimal_numeral
     (uptimePercentage (computeSummaryForResults sample_toString three_results)) = true) /\
  (has_two_decimals
     (averageResponseTime (computeSummaryForResults sample_toString three_results)) /\
   is_two_decimal_numeral
     (averageResponseTime (computeSummaryForResults sample_toString three_results)) = true).
Proof.
  assert (H1 : 0 < length_of three_results < 2 ^ 32) by (split; reflexivity).
  assert (H2 : 0 < count_successes three_results) by reflexivity.
  assert (H3 : Forall (fun r => success r = true -> 0 <= responseTime r) three_results).
  { repeat constructor; intros _; vm_compute; discriminate. }
  assert (H4 : total_successful_time three_results < 2 ^ 45) by reflexivity.
  repeat (split; [assumption|]).
  split.
  - exact (proj1 (summary_numbers_have_two_decimals sample_toString three_results H1)).
  - exact (proj2 (summary_numbers_have_two_decimals sample_toString three_results H1)
             H2 H3 H4).
Defined.
